(** * scheduleLib: a weekly schedule of timed events

    A shallow embedding of [src/scheduleLib/__init__.py] (class [Schedule])
    and the properties of its descriptor escaping, due-event scan, event-id
    allocation, removal, lookup and JSON persistence. *)

From Stdlib Require Import ZArith Ascii String.
From Stdlib Require DecimalFacts DecimalPos QArith.
From stdpp Require Import base decidable list strings.
From Equations Require Import Equations.

Local Open Scope Z_scope.
Set Warnings "-register-all,-level-tolerance".

(** ** Python strings

    A [str] is a sequence of characters; [pystr "..."] turns a literal into
    one. *)

Abbreviation str := (list ascii).

Definition pystr (s : string) : str := list_ascii_of_string s.

Definition backslash : ascii := ascii_of_nat 92.
Definition colon : ascii := ascii_of_nat 58.
Definition qmark : ascii := ascii_of_nat 63.

Module Str.

(** [text[0:len(old)] == old] *)
Fixpoint startswith (old text : str) : bool :=
  match old, text with
  | [], _ => true
  | _ :: _, [] => false
  | a :: old', b :: text' => bool_decide (a = b) && startswith old' text'
  end.

(** [old in text], the substring test. *)
Fixpoint contains (old text : str) : bool :=
  startswith old text ||
  match text with
  | [] => false
  | _ :: text' => contains old text'
  end.

(** [text.replace(old, new)] for a non-empty [old] (both call sites pass
    a literal of one or two characters): occurrences are found from left
    to right and do not overlap. [skip] counts the characters of the
    occurrence just replaced that are still to be stepped over. *)
Fixpoint replace_from (old new : str) (skip : nat) (text : str) : str :=
  match text with
  | [] => []
  | c :: rest =>
      match skip with
      | S k => replace_from old new k rest
      | O =>
          if startswith old text
          then new ++ replace_from old new (Nat.pred (length old)) rest
          else c :: replace_from old new 0 rest
      end
  end.

Definition replace (old new text : str) : str := replace_from old new 0 text.

(** [text.split(sep)] for a one-character separator. *)
Fixpoint split (sep : ascii) (text : str) : list str :=
  match text with
  | [] => [[]]
  | c :: rest =>
      if bool_decide (c = sep) then [] :: split sep rest
      else match split sep rest with
           | field :: fields => (c :: field) :: fields
           | [] => [[c]]
           end
  end.

End Str.

(** ** Descriptor escaping *)

Definition encodeSafeEventDSC (text : str) : str :=
  let text := Str.replace [backslash] [backslash; backslash] text in
  if Str.contains [colon] text
  then Str.replace [colon] [backslash; qmark] text
  else text.

Definition decodeSafeEventDSC (text : str) : str :=
  let text :=
    if Str.contains [backslash; qmark] text
    then Str.replace [backslash; qmark] [colon] text
    else text in
  Str.replace [backslash; backslash] [backslash] text.

(** What the two passes of [encodeSafeEventDSC] write for one character. *)
Definition encode_char (c : ascii) : str :=
  if decide (c = backslash) then [backslash; backslash]
  else if decide (c = colon) then [backslash; qmark]
  else [c].

(** What [decodeSafeEventDSC] has after its first pass on an encoded text
    that came from a text without the two characters [\?] in a row. *)
Definition double_backslash (c : ascii) : str :=
  if decide (c = backslash) then [backslash; backslash] else [c].

(** The text after the first pass of [decodeSafeEventDSC] on the encoding
    of [text]. *)
Fixpoint first_pass (text : str) : str :=
  match text with
  | [] => []
  | c :: rest =>
      if bool_decide (c = backslash) then
        match rest with
        | d :: rest' =>
            if bool_decide (d = qmark)
            then backslash :: colon :: first_pass rest'
            else backslash :: backslash :: first_pass rest
        | [] => [backslash; backslash]
        end
      else c :: first_pass rest
  end.

(** [text] with every question mark that directly follows a backslash
    turned into a colon. *)
Fixpoint misread (text : str) : str :=
  match text with
  | [] => []
  | c :: rest =>
      c :: match rest with
           | d :: rest' =>
               if bool_decide (c = backslash) && bool_decide (d = qmark)
               then colon :: misread rest'
               else misread rest
           | [] => []
           end
  end.

(** ** The schedule object *)

(** The exceptions the modelled methods can raise. *)
Inductive exn : Set :=
| ValueError
| IndexError
| KeyError
| TypeError
| JSONDecodeError
| ReError.

(** A method call either returns a value or raises; both leave an object
    state behind (what was mutated before a [raise] stays mutated). *)
Inductive outcome (St A : Type) : Type :=
| Return (v : A) (st : St)
| Raise (e : exn) (st : St).
Arguments Return {St A} v st.
Arguments Raise {St A} e st.

Definition state_of {St A} (o : outcome St A) : St :=
  match o with Return _ st | Raise _ st => st end.

(** [self.eventSchedule] is [[timestamp], [eventDsc], [eventID]]: the three
    inner lists are the fields [eventSchedule_0], [eventSchedule_1] and
    [eventSchedule_2]. *)
Record Schedule : Type := mkSchedule {
  eventSchedule_0 : list Z;
  eventSchedule_1 : list str;
  eventSchedule_2 : list Z;
  jsonTimings : str;
  allowedEventModes : list str;
  prevTimestamp : Z
}.

Definition set_eventSchedule_0 (l : list Z) (self : Schedule) : Schedule :=
  mkSchedule l (eventSchedule_1 self) (eventSchedule_2 self)
    (jsonTimings self) (allowedEventModes self) (prevTimestamp self).

Definition set_eventSchedule_1 (l : list str) (self : Schedule) : Schedule :=
  mkSchedule (eventSchedule_0 self) l (eventSchedule_2 self)
    (jsonTimings self) (allowedEventModes self) (prevTimestamp self).

Definition set_eventSchedule_2 (l : list Z) (self : Schedule) : Schedule :=
  mkSchedule (eventSchedule_0 self) (eventSchedule_1 self) l
    (jsonTimings self) (allowedEventModes self) (prevTimestamp self).

Definition set_prevTimestamp (t : Z) (self : Schedule) : Schedule :=
  mkSchedule (eventSchedule_0 self) (eventSchedule_1 self) (eventSchedule_2 self)
    (jsonTimings self) (allowedEventModes self) t.

(** The three lists are positionally aligned. *)
Definition aligned (self : Schedule) : Prop :=
  length (eventSchedule_1 self) = length (eventSchedule_0 self) /\
  length (eventSchedule_2 self) = length (eventSchedule_0 self).

(** What [datetime.now(timezone.utc)] is read for. *)
Record datetime : Set := mkDatetime {
  weekday : Z;
  hour : Z;
  minute : Z;
  second : Z
}.

Definition weeklyTimestamp (crrntTime : datetime) : Z :=
  weekday crrntTime * 100000 + hour crrntTime * 3600
  + minute crrntTime * 60 + second crrntTime.

Definition defaultEventModes : list str :=
  [pystr "b"; pystr "l"; pystr "s"; pystr "r"; pystr "y"; pystr "m"].

(** [Schedule.__init__] *)
Definition init (allowedEventModes : list str) (crrntTime : datetime) : Schedule :=
  mkSchedule [] [] [] [] allowedEventModes (weeklyTimestamp crrntTime).

(** An event as the methods report it:
    [(eventTimestamp, [eventMode, eventParams, eventSampleName], eventID)]. *)
Definition Event : Type := Z * list str * Z.

Definition decodeFields (eventDsc : str) : list str :=
  map decodeSafeEventDSC (Str.split colon eventDsc).

Definition enumerate {A} (l : list A) : list (nat * A) :=
  zip (seq 0 (length l)) l.

(** ** tick *)

(** The [for ev in enumerate(self.eventSchedule[0])] loop; indexing the
    other two lists out of range raises [IndexError]. *)
Fixpoint tick_loop (self : Schedule) (crrntTimestamp : Z)
    (evs : list (nat * Z)) (toExecute : list Event) : exn + list Event :=
  match evs with
  | [] => inr toExecute
  | ev :: evs' =>
      if bool_decide (ev.2 > prevTimestamp self) && bool_decide (ev.2 <= crrntTimestamp)
      then
        match eventSchedule_1 self !! ev.1 with
        | None => inl IndexError
        | Some eventDsc =>
            match eventSchedule_2 self !! ev.1 with
            | None => inl IndexError
            | Some eventID =>
                tick_loop self crrntTimestamp evs'
                  (toExecute ++ [(ev.2, decodeFields eventDsc, eventID)])
            end
        end
      else tick_loop self crrntTimestamp evs' toExecute
  end.

Definition tick (crrntTime : datetime) (self : Schedule)
    : outcome Schedule (list Event) :=
  let crrntTimestamp := weeklyTimestamp crrntTime in
  match tick_loop self crrntTimestamp (enumerate (eventSchedule_0 self)) [] with
  | inl e => Raise e self
  | inr toExecute => Return toExecute (set_prevTimestamp crrntTimestamp self)
  end.

(** ** add *)

(** [while(i in self.eventSchedule[2]): i += 1]. Each round leaves one
    stored id fewer at or above [i]. *)
Equations? linear_scan (ids : list Z) (i : Z) : Z
    by wf (length (filter (fun x => i <= x) ids)) lt :=
  linear_scan ids i with decide (i ∈ ids) := {
    | left _ := linear_scan ids (i + 1)
    | right _ := i }.
Proof.
  clear linear_scan. induction ids as [|x ids IH]; [by apply not_elem_of_nil in e|].
  rewrite !filter_cons. apply elem_of_cons in e as [->|Hin].
  - rewrite decide_False by lia. rewrite (decide_True (P := (x <= x))) by lia.
    simpl. apply Nat.lt_succ_r.
    clear IH. induction ids as [|y ids IH]; [done|].
    rewrite !filter_cons. repeat case_decide; simpl; lia.
  - specialize (IH Hin). repeat case_decide; simpl; lia.
Qed.

(** The [while(newEventID in self.eventSchedule[2])] loop of [add].
    [randint k] is what the [k]-th call of [randint(10000, 99999)] made by
    this [add] returns ([k] from 0); [n] draws have been made when the loop
    condition is tested. A round draws again and counts; once the count
    passes 100 the draw is dropped and the scan from 0 decides. *)
Equations? draw_loop (randint : nat -> Z) (ids : list Z) (n : Z) (newEventID : Z) : Z
    by wf (Z.to_nat (101 - n)) lt :=
  draw_loop randint ids n newEventID with decide (newEventID ∈ ids) := {
    | right _ := newEventID
    | left _ with decide (n + 1 > 100) := {
        | left _ := linear_scan ids 0
        | right _ := draw_loop randint ids (n + 1) (randint (Z.to_nat n)) } }.
Proof. lia. Qed.

Definition newEventID (randint : nat -> Z) (ids : list Z) : Z :=
  draw_loop randint ids 1 (randint 0%nat).

Definition add (randint : nat -> Z) (timestamp : Z) (mode params sampleName : str)
    (self : Schedule) : outcome Schedule Z :=
  if negb (bool_decide (mode ∈ allowedEventModes self))
  then Raise ValueError self
  else
    let params := encodeSafeEventDSC params in
    let sampleName := encodeSafeEventDSC sampleName in
    let self := set_eventSchedule_0 (eventSchedule_0 self ++ [timestamp]) self in
    let self :=
      set_eventSchedule_1
        (eventSchedule_1 self ++ [mode ++ colon :: params ++ colon :: sampleName]) self in
    let newEventID := newEventID randint (eventSchedule_2 self) in
    let self := set_eventSchedule_2 (eventSchedule_2 self ++ [newEventID]) self in
    Return newEventID self.

(** ** remove *)

(** [l.index(x)]: the first position of [x]. *)
Fixpoint index {A} `{EqDecision A} (x : A) (l : list A) : option nat :=
  match l with
  | [] => None
  | y :: l' => if decide (y = x) then Some 0%nat else S <$> index x l'
  end.

(** [l.pop(i)] for [i >= 0]: the list without position [i]. *)
Definition pop {A} (i : nat) (l : list A) : option (list A) :=
  if decide (i < length l)%nat then Some (delete i l) else None.

Definition remove (eventID : Z) (self : Schedule) : outcome Schedule unit :=
  match index eventID (eventSchedule_2 self) with
  | None => Raise ValueError self
  | Some rmID =>
      match pop rmID (eventSchedule_0 self) with
      | None => Raise IndexError self
      | Some l0 =>
          let self := set_eventSchedule_0 l0 self in
          match pop rmID (eventSchedule_1 self) with
          | None => Raise IndexError self
          | Some l1 =>
              let self := set_eventSchedule_1 l1 self in
              match pop rmID (eventSchedule_2 self) with
              | None => Raise IndexError self
              | Some l2 => Return () (set_eventSchedule_2 l2 self)
              end
          end
      end
  end.

(** ** getEvent *)

(** [l[i]] for [i >= 0]. *)
Definition item {A} (l : list A) (i : nat) : exn + A :=
  match l !! i with
  | Some x => inr x
  | None => inl IndexError
  end.

#[global] Instance res_bind : MBind (sum exn) := fun A B f m =>
  match m with
  | inl e => inl e
  | inr x => f x
  end.

(** Python truthiness of the optional arguments: [None], [0] and the empty
    string are false. *)
Definition truthy_int (x : option Z) : bool :=
  match x with
  | Some z => negb (bool_decide (z = 0))
  | None => false
  end.

Definition truthy_str (x : option str) : bool :=
  match x with
  | Some (_ :: _) => true
  | _ => false
  end.

Section GetEvent.

(** [re.search(pattern, string)] as a truth value; [None] when the pattern
    does not compile ([re.error]). *)
Variable re_search : str -> str -> option bool.

(** The tuple built for position [evN]. *)
Definition eventAt (self : Schedule) (evN : nat) : exn + Event :=
  timestamp ← item (eventSchedule_0 self) evN;
  eventDsc ← item (eventSchedule_1 self) evN;
  eventID ← item (eventSchedule_2 self) evN;
  inr (timestamp, decodeFields eventDsc, eventID).

(** [for eN in range(len(self.eventSchedule[0]))] *)
Fixpoint regex_loop (self : Schedule) (eventDscRegex : str)
    (eNs : list nat) (r : list Event) : exn + list Event :=
  match eNs with
  | [] => inr r
  | eN :: eNs' =>
      eventDsc ← item (eventSchedule_1 self) eN;
      match re_search eventDscRegex eventDsc with
      | None => inl ReError
      | Some true =>
          ev ← eventAt self eN;
          regex_loop self eventDscRegex eNs' (r ++ [ev])
      | Some false => regex_loop self eventDscRegex eNs' r
      end
  end.

(** The result is [None] (no selector, or nothing found by id or
    timestamp) or a list of events. *)
Definition getEvent (eventID eventTimestamp : option Z) (eventDscRegex : option str)
    (self : Schedule) : exn + option (list Event) :=
  if truthy_int eventID
     && bool_decide (default 0 eventID ∈ eventSchedule_2 self)
  then
    match index (default 0 eventID) (eventSchedule_2 self) with
    | None => inl ValueError
    | Some evN => ev ← eventAt self evN; inr (Some [ev])
    end
  else if truthy_int eventTimestamp
     && bool_decide (default 0 eventTimestamp ∈ eventSchedule_0 self)
  then
    match index (default 0 eventTimestamp) (eventSchedule_0 self) with
    | None => inl ValueError
    | Some evN => ev ← eventAt self evN; inr (Some [ev])
    end
  else if truthy_str eventDscRegex
  then
    r ← regex_loop self (default [] eventDscRegex)
           (seq 0 (length (eventSchedule_0 self))) [];
    inr (Some r)
  else inr None.

End GetEvent.

(** ** JSON documents

    The values of Python's [json] module and its text format, as
    [json.dumps] writes it and [json.loads] reads it with their default
    arguments. A text is a [str] of 8-bit characters; the strings inside a
    document are lists of code points, since a [\u] escape can name a
    character beyond these. A float is known by the literal it was read
    from: which float that is, and the text [repr] gives for it, are not
    computed here; [dumps] takes the latter as a function. Integers of more
    than 4300 digits make both [dumps] and [loads] raise [ValueError] (the
    interpreter's default limit). What the interpreter's recursion limit
    does to deeply nested documents is not modelled. *)

Module Json.

Inductive json : Type :=
| JNull
| JBool (b : bool)
| JInt (z : Z)
| JFloat (literal : str)
| JStr (s : list N)
| JArr (l : list json)
| JObj (members : list (list N * json)).

(** The code points of a text of 8-bit characters. *)
Definition code_points (s : str) : list N := N_of_ascii <$> s.

Definition dquote : ascii := ascii_of_nat 34.

(** *** Numbers *)

Definition char_of_digit (d : N) : ascii := ascii_of_N (48 + d).

Definition digit_of_char (c : ascii) : option N :=
  let n := N_of_ascii c in
  if decide (48 <= n <= 57)%N then Some (n - 48)%N else None.

(** Most significant digit first. *)
Fixpoint digits_of_uint (d : Decimal.uint) : str :=
  match d with
  | Decimal.Nil => []
  | Decimal.D0 d => char_of_digit 0 :: digits_of_uint d
  | Decimal.D1 d => char_of_digit 1 :: digits_of_uint d
  | Decimal.D2 d => char_of_digit 2 :: digits_of_uint d
  | Decimal.D3 d => char_of_digit 3 :: digits_of_uint d
  | Decimal.D4 d => char_of_digit 4 :: digits_of_uint d
  | Decimal.D5 d => char_of_digit 5 :: digits_of_uint d
  | Decimal.D6 d => char_of_digit 6 :: digits_of_uint d
  | Decimal.D7 d => char_of_digit 7 :: digits_of_uint d
  | Decimal.D8 d => char_of_digit 8 :: digits_of_uint d
  | Decimal.D9 d => char_of_digit 9 :: digits_of_uint d
  end.

(** [str(z)] *)
Definition str_of_int (z : Z) : str :=
  match z with
  | Z0 => [char_of_digit 0]
  | Zpos p => digits_of_uint (Pos.to_uint p)
  | Zneg p => ascii_of_nat 45 :: digits_of_uint (Pos.to_uint p)
  end.

(** [sys.get_int_max_str_digits()]: an integer of more digits is not
    converted to or from text, [ValueError] is raised. *)
Definition int_max_str_digits : nat := 4300.

(** The number of decimal digits of [z]. *)
Definition digits_of_int (z : Z) : nat :=
  match z with
  | Z0 => 1
  | Zpos p | Zneg p => Decimal.nb_digits (Pos.to_uint p)
  end.

(** The longest run of digits at the head of the text, as a number read
    from left to right, how many digits, and the rest of the text. *)
Fixpoint scan_digits (acc : N) (count : nat) (s : str) : N * nat * str :=
  match s with
  | [] => (acc, count, [])
  | c :: s' =>
      match digit_of_char c with
      | Some d => scan_digits (acc * 10 + d)%N (S count) s'
      | None => (acc, count, s)
      end
  end.

(** The text after the digits at its head. *)
Definition skip_digits (s : str) : str := (scan_digits 0 0 s).2.

(** The integer part of a number: [0] alone, or a run of digits that does
    not start with [0]. *)
Definition scan_int_part (body : str) : N * nat * str :=
  match body with
  | c :: s1 =>
      if decide (c = char_of_digit 0) then (0%N, 1%nat, s1) else scan_digits 0 0 body
  | [] => (0%N, 0%nat, [])
  end.

(** A fraction at the head of the text, a point and at least one digit:
    the text after it. *)
Definition scan_fraction (s : str) : option str :=
  match s with
  | c :: d :: s2 =>
      if decide (c = ascii_of_nat 46) then
        match digit_of_char d with
        | Some _ => Some (skip_digits s2)
        | None => None
        end
      else None
  | _ => None
  end.

(** An exponent at the head of the text, [e] or [E], an optional sign and
    at least one digit: the text after it. *)
Definition scan_exponent (s : str) : option str :=
  match s with
  | c :: s1 =>
      if bool_decide (c = ascii_of_nat 101) || bool_decide (c = ascii_of_nat 69) then
        let s2 :=
          match s1 with
          | sign :: s' =>
              if bool_decide (sign = ascii_of_nat 43) || bool_decide (sign = ascii_of_nat 45)
              then s' else s1
          | [] => s1
          end in
        match s2 with
        | d :: s3 =>
            match digit_of_char d with
            | Some _ => Some (skip_digits s3)
            | None => None
            end
        | [] => None
        end
      else None
  | [] => None
  end.

(** *** Strings *)

Definition hexdigit (n : N) : ascii :=
  if decide (n < 10)%N then ascii_of_N (48 + n) else ascii_of_N (87 + n).

Definition hexval (c : ascii) : option N :=
  let n := N_of_ascii c in
  if decide (48 <= n <= 57)%N then Some (n - 48)%N
  else if decide (97 <= n <= 102)%N then Some (n - 87)%N
  else if decide (65 <= n <= 70)%N then Some (n - 55)%N
  else None.

(** A [\uXXXX] escape. *)
Definition u_escape (n : N) : str :=
  [backslash; ascii_of_nat 117; hexdigit (n / 4096 mod 16); hexdigit (n / 256 mod 16);
   hexdigit (n / 16 mod 16); hexdigit (n mod 16)]%N.

(** One code point of a string as [dumps] writes it ([ensure_ascii]);
    from [10000] up as a surrogate pair. *)
Definition escape_char (n : N) : str :=
  if decide (n = 34)%N then [backslash; dquote]
  else if decide (n = 92)%N then [backslash; backslash]
  else if decide (n = 10)%N then [backslash; ascii_of_nat 110]
  else if decide (n = 13)%N then [backslash; ascii_of_nat 114]
  else if decide (n = 9)%N then [backslash; ascii_of_nat 116]
  else if decide (n = 12)%N then [backslash; ascii_of_nat 102]
  else if decide (n = 8)%N then [backslash; ascii_of_nat 98]
  else if decide (32 <= n <= 126)%N then [ascii_of_N n]
  else if decide (n < 65536)%N then u_escape n
  else u_escape (55296 + (n - 65536) / 1024 mod 1024)
       ++ u_escape (56320 + (n - 65536) mod 1024).

(** The code point an escape letter stands for. *)
Definition unescape_letter (e : ascii) : option N :=
  let n := N_of_ascii e in
  if decide (n = 34)%N then Some 34%N
  else if decide (n = 92)%N then Some 92%N
  else if decide (n = 47)%N then Some 47%N
  else if decide (n = 98)%N then Some 8%N
  else if decide (n = 102)%N then Some 12%N
  else if decide (n = 110)%N then Some 10%N
  else if decide (n = 114)%N then Some 13%N
  else if decide (n = 116)%N then Some 9%N
  else None.

(** The number four hexadecimal digits stand for. *)
Definition unescape_hex (h1 h2 h3 h4 : ascii) : option N :=
  a ← hexval h1; b ← hexval h2; c ← hexval h3; d ← hexval h4;
  Some (((a * 16 + b) * 16 + c) * 16 + d)%N.

Definition high_surrogate (n : N) : bool := bool_decide (55296 <= n <= 56319)%N.
Definition low_surrogate (n : N) : bool := bool_decide (56320 <= n <= 57343)%N.

(** The code point of a surrogate pair. *)
Definition join_surrogates (high low : N) : N :=
  (65536 + (high - 55296) * 1024 + (low - 56320))%N.

(** The text after an opening quote: the string's code points and what
    follows the closing quote. A [\u] escape of a high surrogate directly
    followed by one of a low surrogate is one code point. *)
Fixpoint parse_string_body (s : str) : option (list N * str) :=
  match s with
  | [] => None
  | c :: s1 =>
      if decide (c = dquote) then Some ([], s1)
      else if decide (c = backslash) then
        match s1 with
        | [] => None
        | e :: s2 =>
            if decide (e = ascii_of_nat 117) then
              match s2 with
              | h1 :: h2 :: h3 :: h4 :: s6 =>
                  match unescape_hex h1 h2 h3 h4 with
                  | None => None
                  | Some uni =>
                      if high_surrogate uni then
                        match s6 with
                        | b :: u :: g1 :: g2 :: g3 :: g4 :: s12 =>
                            if bool_decide (b = backslash)
                               && bool_decide (u = ascii_of_nat 117)
                            then
                              match unescape_hex g1 g2 g3 g4 with
                              | None => None
                              | Some uni2 =>
                                  if low_surrogate uni2 then
                                    '(v, rest) ← parse_string_body s12;
                                    Some (join_surrogates uni uni2 :: v, rest)
                                  else
                                    '(v, rest) ← parse_string_body s6;
                                    Some (uni :: v, rest)
                              end
                            else
                              '(v, rest) ← parse_string_body s6;
                              Some (uni :: v, rest)
                        | _ =>
                            '(v, rest) ← parse_string_body s6;
                            Some (uni :: v, rest)
                        end
                      else
                        '(v, rest) ← parse_string_body s6;
                        Some (uni :: v, rest)
                  end
              | _ => None
              end
            else
              match unescape_letter e with
              | None => None
              | Some x => '(v, rest) ← parse_string_body s2; Some (x :: v, rest)
              end
        end
      else if decide (N_of_ascii c < 32)%N then None
      else '(v, rest) ← parse_string_body s1; Some (N_of_ascii c :: v, rest)
  end.

(** *** Writing a document *)

(** [", ".join(items)] *)
Fixpoint join_items (items : list str) : str :=
  match items with
  | [] => []
  | x :: items1 =>
      match items1 with
      | [] => x
      | _ :: _ => x ++ pystr ", " ++ join_items items1
      end
  end.

(** A string as [dumps] writes it. *)
Definition dump_str (s : list N) : str :=
  dquote :: concat (map escape_char s) ++ [dquote].

(** No integer in [v] has more than [int_max_str_digits] digits. *)
Fixpoint writable (v : json) : bool :=
  match v with
  | JInt z => bool_decide (digits_of_int z <= int_max_str_digits)%nat
  | JArr l => forallb writable l
  | JObj members =>
      forallb (fun member => match member with (_, x) => writable x end) members
  | JNull | JBool _ | JFloat _ | JStr _ => true
  end.

Section Dumps.

(** What [dumps] writes for the float a literal stands for: the text
    [float.__repr__] gives, or [NaN], [Infinity], [-Infinity]. *)
Variable float_repr : str -> str.

(** What [json.dumps(v)] writes when it returns. *)
Fixpoint text_of (v : json) : str :=
  match v with
  | JNull => pystr "null"
  | JBool true => pystr "true"
  | JBool false => pystr "false"
  | JInt z => str_of_int z
  | JFloat literal => float_repr literal
  | JStr s => dump_str s
  | JArr l => pystr "[" ++ join_items (map text_of l) ++ pystr "]"
  | JObj members =>
      pystr "{"
      ++ join_items
           (map (fun member =>
                   match member with
                   | (k, x) => dump_str k ++ pystr ": " ++ text_of x
                   end) members)
      ++ pystr "}"
  end.

(** [json.dumps(v)]; [None] when it raises [ValueError]. *)
Definition dumps (v : json) : option str :=
  if writable v then Some (text_of v) else None.

End Dumps.

(** *** Reading a document *)

Definition is_ws (c : ascii) : bool :=
  let n := N_of_ascii c in
  bool_decide (n = 32)%N || bool_decide (n = 9)%N
  || bool_decide (n = 10)%N || bool_decide (n = 13)%N.

Fixpoint skip_ws (s : str) : str :=
  match s with
  | c :: s1 => if is_ws c then skip_ws s1 else s
  | [] => []
  end.

(** What is not JSON raises [JSONDecodeError]. *)
Definition scanned {A} (r : option A) : exn + A :=
  match r with
  | Some x => inr x
  | None => inl JSONDecodeError
  end.

(** A number at the head of the text: an optional minus sign, an integer
    part, and as much of a fraction and an exponent as is there. With
    neither it is an integer, of at most [int_max_str_digits] digits;
    otherwise a float. *)
Definition parse_number (s : str) : exn + (json * str) :=
  let '(negative, body) :=
    match s with
    | c :: s1 => if decide (c = ascii_of_nat 45) then (true, s1) else (false, s)
    | [] => (false, [])
    end in
  let '(n, count, rest) := scan_int_part body in
  match count with
  | O => inl JSONDecodeError
  | S _ =>
      let fraction := scan_fraction rest in
      let rest1 := default rest fraction in
      let exponent := scan_exponent rest1 in
      let rest2 := default rest1 exponent in
      match fraction, exponent with
      | None, None =>
          if bool_decide (count <= int_max_str_digits)%nat
          then inr (JInt (if negative : bool then - Z.of_N n else Z.of_N n), rest)
          else inl ValueError
      | _, _ => inr (JFloat (take (length s - length rest2) s), rest2)
      end
  end.

(** [d[k] = x] on a dict kept as its items in insertion order. *)
Fixpoint dict_set (k : list N) (x : json) (d : list (list N * json))
    : list (list N * json) :=
  match d with
  | [] => [(k, x)]
  | member :: d' =>
      if decide (member.1 = k) then (k, x) :: d' else member :: dict_set k x d'
  end.

(** [dict(pairs)] *)
Definition dict_of_pairs (pairs : list (list N * json)) : list (list N * json) :=
  foldl (fun d pair => dict_set pair.1 pair.2 d) [] pairs.

(** A value at the head of the text, the elements of an array after its
    opening bracket, and the members of an object after its opening brace.
    [fuel] bounds the recursion; twice the length of the text is enough
    ([JsonFacts.parse_fuel]). *)
Fixpoint parse_value (fuel : nat) (s : str) : exn + (json * str) :=
  match fuel with
  | O => inl JSONDecodeError
  | S fuel1 =>
      match s with
      | [] => inl JSONDecodeError
      | c :: s1 =>
          if decide (c = dquote) then
            '(v, rest) ← scanned (parse_string_body s1); inr (JStr v, rest)
          else if decide (c = ascii_of_nat 123) then
            match skip_ws s1 with
            | c1 :: rest =>
                if decide (c1 = ascii_of_nat 125) then inr (JObj [], rest)
                else '(pairs, rest1) ← parse_members fuel1 (c1 :: rest);
                     inr (JObj (dict_of_pairs pairs), rest1)
            | [] => inl JSONDecodeError
            end
          else if decide (c = ascii_of_nat 91) then
            match skip_ws s1 with
            | c1 :: rest =>
                if decide (c1 = ascii_of_nat 93) then inr (JArr [], rest)
                else '(l, rest1) ← parse_elements fuel1 (c1 :: rest); inr (JArr l, rest1)
            | [] => inl JSONDecodeError
            end
          else if Str.startswith (pystr "null") s then inr (JNull, drop 4 s)
          else if Str.startswith (pystr "true") s then inr (JBool true, drop 4 s)
          else if Str.startswith (pystr "false") s then inr (JBool false, drop 5 s)
          else if Str.startswith (pystr "NaN") s then inr (JFloat (pystr "NaN"), drop 3 s)
          else if Str.startswith (pystr "Infinity") s
          then inr (JFloat (pystr "Infinity"), drop 8 s)
          else if Str.startswith (pystr "-Infinity") s
          then inr (JFloat (pystr "-Infinity"), drop 9 s)
          else parse_number s
      end
  end
with parse_elements (fuel : nat) (s : str) : exn + (list json * str) :=
  match fuel with
  | O => inl JSONDecodeError
  | S fuel1 =>
      '(v, rest) ← parse_value fuel1 s;
      match skip_ws rest with
      | c :: rest1 =>
          if decide (c = ascii_of_nat 44) then
            '(l, rest2) ← parse_elements fuel1 (skip_ws rest1); inr (v :: l, rest2)
          else if decide (c = ascii_of_nat 93) then inr ([v], rest1)
          else inl JSONDecodeError
      | [] => inl JSONDecodeError
      end
  end
with parse_members (fuel : nat) (s : str) : exn + (list (list N * json) * str) :=
  match fuel with
  | O => inl JSONDecodeError
  | S fuel1 =>
      match s with
      | [] => inl JSONDecodeError
      | c :: s1 =>
          if decide (c = dquote) then
            '(k, rest) ← scanned (parse_string_body s1);
            match skip_ws rest with
            | c1 :: rest1 =>
                if decide (c1 = ascii_of_nat 58) then
                  '(v, rest2) ← parse_value fuel1 (skip_ws rest1);
                  match skip_ws rest2 with
                  | c2 :: rest3 =>
                      if decide (c2 = ascii_of_nat 44) then
                        '(pairs, rest4) ← parse_members fuel1 (skip_ws rest3);
                        inr ((k, v) :: pairs, rest4)
                      else if decide (c2 = ascii_of_nat 125) then inr ([(k, v)], rest3)
                      else inl JSONDecodeError
                  | [] => inl JSONDecodeError
                  end
                else inl JSONDecodeError
            | [] => inl JSONDecodeError
            end
          else inl JSONDecodeError
      end
  end.

(** [json.loads(s)] *)
Definition loads (s : str) : exn + json :=
  '(v, rest) ← parse_value (2 * length s + 2) (skip_ws s);
  match skip_ws rest with
  | [] => inr v
  | _ :: _ => inl JSONDecodeError
  end.

(** [tData[i]] for [i >= 0]; the keys of a dict are strings. *)
Definition getitem (tData : json) (i : nat) : exn + json :=
  match tData with
  | JArr l => item l i
  | JStr s => c ← item s i; inr (JStr [c])
  | JObj _ => inl KeyError
  | JNull | JBool _ | JInt _ | JFloat _ => inl TypeError
  end.

(** *** Notions for the round trip of the text format *)

(** No float and no dict in [v], and strings of 8-bit characters. *)
Fixpoint plain (v : json) : bool :=
  match v with
  | JStr s => forallb (fun n => bool_decide (n < 256)%N) s
  | JArr l => forallb plain l
  | JFloat _ | JObj _ => false
  | JNull | JBool _ | JInt _ => true
  end.

(** The number a run of decimal digits stands for, read from the left
    with [acc] as the value so far. *)
Fixpoint horner (acc : N) (u : Decimal.uint) : N :=
  match u with
  | Decimal.Nil => acc
  | Decimal.D0 u => horner (acc * 10 + 0) u
  | Decimal.D1 u => horner (acc * 10 + 1) u
  | Decimal.D2 u => horner (acc * 10 + 2) u
  | Decimal.D3 u => horner (acc * 10 + 3) u
  | Decimal.D4 u => horner (acc * 10 + 4) u
  | Decimal.D5 u => horner (acc * 10 + 5) u
  | Decimal.D6 u => horner (acc * 10 + 6) u
  | Decimal.D7 u => horner (acc * 10 + 7) u
  | Decimal.D8 u => horner (acc * 10 + 8) u
  | Decimal.D9 u => horner (acc * 10 + 9) u
  end%N.

Definition starts_fraction (s : str) : bool :=
  match s with
  | c :: _ => bool_decide (c = ascii_of_nat 46) || bool_decide (c = ascii_of_nat 101)
              || bool_decide (c = ascii_of_nat 69)
  | [] => false
  end.

(** What may follow a number: the end of the text, or a character that
    is neither a digit nor the start of a fraction or an exponent. *)
Definition delimited (rest : str) : Prop :=
  match rest with
  | [] => True
  | c :: _ => digit_of_char c = None /\ starts_fraction rest = false
  end.

Definition nonzero_head (u : Decimal.uint) : Prop :=
  match u with
  | Decimal.Nil | Decimal.D0 _ => False
  | _ => True
  end.

(** The first character of a number. *)
Definition int_start (c : ascii) : Prop :=
  is_Some (digit_of_char c) \/ c = ascii_of_nat 45.

(** The first character of a written document: not white space and not
    a closing bracket. *)
Definition value_start (c : ascii) : Prop :=
  is_ws c = false /\ c <> ascii_of_nat 93.

(** What [parse_value] is asked to show for a document. *)
Definition parses_back (float_repr : str -> str) (v : json) : Prop :=
  plain v = true ->
  writable v = true ->
  forall fuel rest,
    delimited rest ->
    (length (text_of float_repr v) < fuel)%nat ->
    parse_value fuel (text_of float_repr v ++ rest) = inr (v, rest).

End Json.
Import Json.

(** ** exportTimings and importTimings

    [importTimings] stores whatever values the parsed document holds, so
    for this pair of methods the three inner lists of [self.eventSchedule]
    are untyped values. *)

Record PySchedule : Type := mkPySchedule {
  py_eventSchedule_0 : json;
  py_eventSchedule_1 : json;
  py_eventSchedule_2 : json;
  py_jsonTimings : str;
  py_allowedEventModes : list str;
  py_prevTimestamp : Z
}.

Definition set_py_eventSchedule_0 (v : json) (self : PySchedule) : PySchedule :=
  mkPySchedule v (py_eventSchedule_1 self) (py_eventSchedule_2 self)
    (py_jsonTimings self) (py_allowedEventModes self) (py_prevTimestamp self).

Definition set_py_eventSchedule_1 (v : json) (self : PySchedule) : PySchedule :=
  mkPySchedule (py_eventSchedule_0 self) v (py_eventSchedule_2 self)
    (py_jsonTimings self) (py_allowedEventModes self) (py_prevTimestamp self).

Definition set_py_eventSchedule_2 (v : json) (self : PySchedule) : PySchedule :=
  mkPySchedule (py_eventSchedule_0 self) (py_eventSchedule_1 self) v
    (py_jsonTimings self) (py_allowedEventModes self) (py_prevTimestamp self).

Definition set_py_jsonTimings (t : str) (self : PySchedule) : PySchedule :=
  mkPySchedule (py_eventSchedule_0 self) (py_eventSchedule_1 self)
    (py_eventSchedule_2 self) t (py_allowedEventModes self) (py_prevTimestamp self).

(** A schedule built by [add] and [remove], seen as such an object. *)
Definition py_of (self : Schedule) : PySchedule :=
  mkPySchedule (JArr (map JInt (eventSchedule_0 self)))
    (JArr (map (fun eventDsc => JStr (code_points eventDsc)) (eventSchedule_1 self)))
    (JArr (map JInt (eventSchedule_2 self)))
    (jsonTimings self) (allowedEventModes self) (prevTimestamp self).

(** The three arrays of the object. *)
Definition py_eventSchedule (self : PySchedule) : list json :=
  [py_eventSchedule_0 self; py_eventSchedule_1 self; py_eventSchedule_2 self].

Section Persistence.

(** [json.dumps], which answers [None] when it raises [ValueError], and
    [json.loads]. *)
Variable dumps : json -> option str.
Variable loads : str -> exn + json.

(** The method returns [self], the object that [Return] carries as its
    state; when [json.dumps] raises, nothing has been assigned. *)
Definition exportTimings (self : PySchedule) : outcome PySchedule unit :=
  match dumps (JArr (py_eventSchedule self)) with
  | None => Raise ValueError self
  | Some text => Return () (set_py_jsonTimings text self)
  end.

Definition importTimings (self : PySchedule) : outcome PySchedule unit :=
  match loads (py_jsonTimings self) with
  | inl e => Raise e self
  | inr tData =>
      match getitem tData 0 with
      | inl e => Raise e self
      | inr v0 =>
          let self := set_py_eventSchedule_0 v0 self in
          match getitem tData 1 with
          | inl e => Raise e self
          | inr v1 =>
              let self := set_py_eventSchedule_1 v1 self in
              match getitem tData 2 with
              | inl e => Raise e self
              | inr v2 => Return () (set_py_eventSchedule_2 v2 self)
              end
          end
      end
  end.

End Persistence.

(** ** saveToFile and readFromFile *)

Module OsPath.

Definition sep : ascii := ascii_of_nat 47.

(** [text.endswith(c)] for one character. *)
Definition endswith (c : ascii) (text : str) : bool :=
  match last text with
  | Some d => bool_decide (d = c)
  | None => false
  end.

(** [os.path.join(a, b)] of [posixpath]. *)
Definition join (a b : str) : str :=
  if Str.startswith [sep] b then b
  else if bool_decide (a = []) || endswith sep a then a ++ b
  else a ++ sep :: b.

End OsPath.

(** [f"sch{i}.json"] *)
Definition sch_name (i : Z) : str :=
  pystr "sch" ++ str_of_int i ++ pystr ".json".

(** [x if x else d] for an optional string argument. *)
Definition str_or (x : option str) (d : str) : str :=
  if truthy_str x then default [] x else d.

Section Storage.

(** The file system as the two methods use it. [OSError] is what its
    operations raise. *)
Variable FS : Type.
Variable OSError : Type.

(** [os.path.exists(path)] *)
Variable path_exists : FS -> str -> bool.

(** [with open(path, "w") as f: f.write(text)]: the file system afterwards. *)
Variable write_text : FS -> str -> str -> OSError + FS.

(** [with open(path, "r") as f: f.read()] *)
Variable read_text : FS -> str -> OSError + str.

(** [glob.glob(pattern, root_dir=root_dir)] *)
Variable glob : FS -> str -> option str -> list str.

(** [os.path.getmtime(path)] *)
Variable getmtime : FS -> str -> OSError + QArith_base.Q.

(** [while(os.path.exists(os.path.join(destDir, f"sch{i}.json"))): i += 1];
    [None] when [fuel] rounds did not reach a free name. *)
Fixpoint free_name_loop (fuel : nat) (fs : FS) (destDir : str) (i : Z) : option Z :=
  match fuel with
  | O => None
  | S fuel' =>
      if path_exists fs (OsPath.join destDir (sch_name i))
      then free_name_loop fuel' fs destDir (i + 1)
      else Some i
  end.

(** The result is what [write] returns, the number of characters, with
    the file system afterwards; [self] is only read. [None] when the
    search for a free name ran out of [fuel]. *)
Definition saveToFile (fuel : nat) (destDir : str) (newFileName : option str)
    (self : PySchedule) (fs : FS) : option (OSError + Z * FS) :=
  newFileName ←
    (if negb (truthy_str newFileName)
     then i ← free_name_loop fuel fs destDir 0; Some (sch_name i)
     else Some (default [] newFileName));
  Some match write_text fs (OsPath.join destDir newFileName) (py_jsonTimings self) with
       | inl e => inl e
       | inr fs' => inr (Z.of_nat (length (py_jsonTimings self)), fs')
       end.

(** [for i in glob.glob(...)] with [tFileName] as [(name, mtime)]. *)
Fixpoint newest_loop (fs : FS) (names : list str)
    (tFileName : str * option QArith_base.Q) : OSError + str * option QArith_base.Q :=
  match names with
  | [] => inr tFileName
  | i :: names' =>
      match getmtime fs i with
      | inl e => inl e
      | inr tTS =>
          newest_loop fs names'
            match tFileName.2 with
            | None => (i, Some tTS)
            | Some t =>
                if QArith_base.Qlt_le_dec t tTS then (i, Some tTS) else tFileName
            end
      end
  end.

(** The result is [self] with the text read stored in [jsonTimings]; when
    an operation raises, [self] is as it was. *)
Definition readFromFile (sourceDir fileName : option str)
    (self : PySchedule) (fs : FS) : OSError + PySchedule :=
  match
    (if negb (truthy_str fileName)
     then match newest_loop fs (glob fs (pystr "sch[0-9]*.json") sourceDir) ([], None) with
          | inl e => inl e
          | inr tFileName => inr tFileName.1
          end
     else inr (default [] fileName))
  with
  | inl e => inl e
  | inr fileName =>
      match read_text fs (OsPath.join (str_or sourceDir (pystr ".")) fileName) with
      | inl e => inl e
      | inr text => inr (set_py_jsonTimings text self)
      end
  end.

(** What [saveToFile] answers when it writes to [path]. *)
Definition written (self : PySchedule) (fs : FS) (path : str) : OSError + Z * FS :=
  match write_text fs path (py_jsonTimings self) with
  | inl e => inl e
  | inr fs' => inr (Z.of_nat (length (py_jsonTimings self)), fs')
  end.

(** [sch{k}.json] is the first default name from [sch{i}.json] on that is
    free in [destDir]. *)
Definition first_free (fs : FS) (destDir : str) (i k : Z) : Prop :=
  i <= k /\
  path_exists fs (OsPath.join destDir (sch_name k)) = false /\
  forall j, i <= j < k -> path_exists fs (OsPath.join destDir (sch_name j)) = true.

End Storage.

(** A file system for the examples: the files as (path, text) pairs, the
    newest first. *)
Module Disk.

Definition disk : Type := list (str * str).

Inductive oserror : Set := FileNotFoundError.

Definition path_exists (d : disk) (path : str) : bool :=
  bool_decide (path ∈ d.*1).

Definition write_text (d : disk) (path text : str) : oserror + disk :=
  inr ((path, text) :: filter (fun f => f.1 <> path) d).

Fixpoint read_text (d : disk) (path : str) : oserror + str :=
  match d with
  | [] => inl FileNotFoundError
  | f :: d' => if decide (f.1 = path) then inr f.2 else read_text d' path
  end.

(** Every file is a candidate, whatever the pattern. *)
Definition glob (d : disk) (pattern : str) (root_dir : option str) : list str :=
  d.*1.

(** The age of a file is its place in the list. *)
Fixpoint getmtime (d : disk) (path : str) : oserror + QArith_base.Q :=
  match d with
  | [] => inl FileNotFoundError
  | f :: d' =>
      if decide (f.1 = path)
      then inr (QArith_base.inject_Z (Z.of_nat (length d')))
      else getmtime d' path
  end.

End Disk.

(** ** Reference definitions for the statements *)

(** The table as rows [(timestamp, eventDsc, eventID)], in table order. *)
Definition rows (self : Schedule) : list (Z * str * Z) :=
  zip (zip (eventSchedule_0 self) (eventSchedule_1 self)) (eventSchedule_2 self).

Definition event_of_row (row : Z * str * Z) : Event :=
  (row.1.1, decodeFields row.1.2, row.2).

(** The events due in the window from [prev] (excluded) to [now]
    (included). *)
Definition due_events (prev now : Z) (self : Schedule) : list Event :=
  event_of_row <$> filter (fun row => prev < row.1.1 <= now) (rows self).

(** An event as [add] is given it, with the id [add] returned. *)
Record added : Type := mkAdded {
  added_timestamp : Z;
  added_mode : str;
  added_params : str;
  added_sampleName : str;
  added_eventID : Z
}.

(** The descriptor [add] stores for an event. *)
Definition descriptor (mode params sampleName : str) : str :=
  mode ++ colon :: encodeSafeEventDSC params ++ colon :: encodeSafeEventDSC sampleName.

(** The table holds the events [events], in this order. *)
Definition holds (self : Schedule) (events : list added) : Prop :=
  eventSchedule_0 self = added_timestamp <$> events /\
  eventSchedule_1 self
  = (fun ev => descriptor (added_mode ev) (added_params ev) (added_sampleName ev))
    <$> events /\
  eventSchedule_2 self = added_eventID <$> events.

(** The mode holds neither a colon nor a backslash, and the parameters
    and the sample name no backslash directly followed by a question
    mark. *)
Definition well_read (ev : added) : Prop :=
  colon ∉ added_mode ev /\ backslash ∉ added_mode ev /\
  Str.contains [backslash; qmark] (added_params ev) = false /\
  Str.contains [backslash; qmark] (added_sampleName ev) = false.

(** An added event as a tuple
    [(eventTimestamp, [eventMode, eventParams, eventSampleName], eventID)]. *)
Definition reported (ev : added) : Event :=
  (added_timestamp ev,
   [added_mode ev; added_params ev; added_sampleName ev],
   added_eventID ev).

(** The states a schedule goes through from its creation under calls of
    [add] and [remove] that return. *)
Inductive reachable : Schedule -> Prop :=
| reachable_init modes crrntTime :
    reachable (init modes crrntTime)
| reachable_add self randint timestamp mode params sampleName eventID self' :
    reachable self ->
    add randint timestamp mode params sampleName self = Return eventID self' ->
    reachable self'
| reachable_remove self eventID self' :
    reachable self ->
    remove eventID self = Return () self' ->
    reachable self'.

(** What [randint(10000, 99999)] can return. *)
Definition in_range (randint : nat -> Z) : Prop :=
  forall k, 10000 <= randint k <= 99999.

(** A reading of the clock within the week. *)
Definition valid_datetime (t : datetime) : Prop :=
  0 <= weekday t <= 6 /\ 0 <= hour t <= 23 /\
  0 <= minute t <= 59 /\ 0 <= second t <= 59.

(** [t1] comes before [t2] in the week. *)
Definition earlier (t1 t2 : datetime) : Prop :=
  weekday t1 < weekday t2 \/
  (weekday t1 = weekday t2 /\
   (hour t1 < hour t2 \/
    (hour t1 = hour t2 /\
     (minute t1 < minute t2 \/
      (minute t1 = minute t2 /\ second t1 < second t2))))).

(** A selector [x] of [getEvent] that does not hit the list [l]. *)
Definition selector_misses (x : option Z) (l : list Z) : Prop :=
  forall z, x = Some z -> z = 0 \/ z ∉ l.

(** ** Example tables *)

Definition monday_midnight : datetime := mkDatetime 0 0 0 0.
Definition monday_one_am : datetime := mkDatetime 0 1 0 1.

(** Every draw gives 10000. *)
Definition always_10000 : nat -> Z := fun _ => 10000.

(** After [add(3600, "b", "l3", "bell1")] on a new schedule, the draw
    being 10000. *)
Definition bell_table : Schedule :=
  mkSchedule [3600] [pystr "b:l3:bell1"] [10000] [] defaultEventModes 0.

(** After a second [add(7200, "b")], every draw being 10000: the scan from
    0 gave the id 0. *)
Definition two_bell_table : Schedule :=
  mkSchedule [3600; 7200] [pystr "b:l3:bell1"; pystr "b::"] [10000; 0] []
    defaultEventModes 0.

(** After [importTimings] of a document whose arrays differ in length. *)
Definition short_table : Schedule :=
  mkSchedule [3600] [] [] (pystr "[[3600], [], []]") defaultEventModes 0.

(** After [add(3600, "a:b")] on a new schedule that allows the mode
    [a:b]. *)
Definition colon_table : Schedule :=
  mkSchedule [3600] [pystr "a:b::"] [10000] [] [pystr "a:b"] 0.

(** After [add(3600, "b", "\?")] on a new schedule. *)
Definition qmark_table : Schedule :=
  mkSchedule [3600] [pystr "b" ++ colon :: [backslash; backslash; qmark] ++ [colon]]
    [10000] [] defaultEventModes 0.

(** A stand-in for [re.search] on patterns without special characters:
    the pattern occurs in the text. *)
Definition literal_search : str -> str -> option bool :=
  fun pattern text => Some (Str.contains pattern text).

(** The table that holds an event with id 0 and timestamp 0. *)
Definition zero_table : Schedule :=
  mkSchedule [0] [pystr "b::"] [0] [] defaultEventModes 0.


(** A writer of floats for tables that hold none: the literal itself. *)
Definition same_literal : str -> str := fun literal => literal.

(** The object of [bell_table] with a pending text. *)
Definition bell_object (pending : string) : PySchedule :=
  set_py_jsonTimings (pystr pending) (py_of bell_table).

(** A directory that holds [sch0.json], and one with two schedule files,
    [sch1.json] the newer. *)
Definition one_file_disk : Disk.disk := [(pystr "./sch0.json", pystr "[]")].

Definition two_file_disk : Disk.disk :=
  [(pystr "sch1.json", pystr "[[], [], []]"); (pystr "sch0.json", pystr "[]")].

(** * Properties *)

(** ** Descriptor escaping *)

Lemma replace_from_absent (old new text : str) :
  Str.contains old text = false -> Str.replace_from old new 0 text = text.
Proof.
  induction text as [|c text IH]; [done|].
  cbn [Str.contains Str.replace_from]. intros H.
  apply orb_false_iff in H as [-> H]. by rewrite IH.
Qed.

Lemma replace_char (a : ascii) (new text : str) :
  Str.replace [a] new text = text ≫= (fun c => if decide (c = a) then new else [c]).
Proof.
  unfold Str.replace. induction text as [|c text IH]; [done|].
  cbn [Str.replace_from Str.startswith length Nat.pred]. rewrite andb_true_r.
  rewrite bind_cons, IH.
  destruct (decide (c = a)) as [->|Hne].
  - by rewrite bool_decide_eq_true_2.
  - rewrite bool_decide_eq_false_2; [done|congruence].
Qed.

Lemma replace_guarded (old new text : str) :
  (if Str.contains old text then Str.replace old new text else text)
  = Str.replace old new text.
Proof.
  destruct (Str.contains old text) eqn:H; [done|].
  symmetry. by apply replace_from_absent.
Qed.

Lemma encodeSafeEventDSC_chars (text : str) :
  encodeSafeEventDSC text = text ≫= encode_char.
Proof.
  unfold encodeSafeEventDSC. cbv zeta. rewrite replace_guarded, !replace_char.
  induction text as [|c text IH]; [done|].
  rewrite !bind_cons, bind_app, IH. f_equal.
  unfold encode_char. destruct (decide (c = backslash)) as [->|Hb]; [done|].
  destruct (decide (c = colon)) as [->|Hc]; [done|].
  simpl. by rewrite decide_False.
Qed.

(** An encoded text holds no [:] at all. *)
Lemma encodeSafeEventDSC_no_colon (text : str) :
  colon ∉ encodeSafeEventDSC text.
Proof.
  rewrite encodeSafeEventDSC_chars. intros H.
  apply list_elem_of_bind in H as (c & Hc & _).
  unfold encode_char in Hc.
  repeat case_decide; repeat (apply elem_of_cons in Hc as [Hc|Hc]; [by inversion Hc|]);
    by apply not_elem_of_nil in Hc.
Qed.

Lemma startswith_qmark_encoded (text : str) :
  Str.startswith [qmark] (text ≫= encode_char) = Str.startswith [qmark] text.
Proof.
  destruct text as [|c text]; [done|].
  rewrite bind_cons. unfold encode_char. repeat case_decide; by subst.
Qed.

Lemma decode_first_pass (text : str) :
  Str.contains [backslash; qmark] text = false ->
  Str.replace [backslash; qmark] [colon] (text ≫= encode_char)
  = text ≫= double_backslash.
Proof.
  unfold Str.replace. induction text as [|c text IH]; [done|].
  intros H. cbn [Str.contains] in H. apply orb_false_iff in H as [Hhead Htail].
  specialize (IH Htail). rewrite !bind_cons.
  destruct (decide (c = backslash)) as [->|Hb].
  - change (encode_char backslash) with [backslash; backslash].
    change (double_backslash backslash) with [backslash; backslash].
    change (Str.startswith [backslash; qmark] (backslash :: text))
      with (Str.startswith [qmark] text) in Hhead.
    cbn [app Str.replace_from].
    change (Str.startswith [backslash; qmark] (backslash :: backslash :: ?t))
      with false.
    change (Str.startswith [backslash; qmark] (backslash :: ?t))
      with (Str.startswith [qmark] t).
    rewrite startswith_qmark_encoded, Hhead. by rewrite IH.
  - replace (double_backslash c) with [c]
      by (unfold double_backslash; by rewrite decide_False).
    destruct (decide (c = colon)) as [->|Hc].
    + change (encode_char colon) with [backslash; qmark].
      cbn [app Str.replace_from length Nat.pred].
      change (Str.startswith [backslash; qmark] (backslash :: qmark :: ?t))
        with true.
      cbn [app]. by rewrite IH.
    + replace (encode_char c) with [c]
        by (unfold encode_char; by rewrite !decide_False).
      cbn [app Str.replace_from].
      replace (Str.startswith [backslash; qmark] (c :: text ≫= encode_char))
        with false; [by rewrite IH|].
      simpl. rewrite bool_decide_eq_false_2; [done|congruence].
Qed.

Lemma decode_second_pass (text : str) :
  Str.replace [backslash; backslash] [backslash] (text ≫= double_backslash) = text.
Proof.
  unfold Str.replace. induction text as [|c text IH]; [done|].
  rewrite bind_cons.
  destruct (decide (c = backslash)) as [->|Hb].
  - change (double_backslash backslash) with [backslash; backslash].
    cbn [app Str.replace_from length Nat.pred].
    change (Str.startswith [backslash; backslash] (backslash :: backslash :: ?t))
      with true.
    cbn [app]. by rewrite IH.
  - replace (double_backslash c) with [c]
      by (unfold double_backslash; by rewrite decide_False).
    cbn [app Str.replace_from].
    replace (Str.startswith [backslash; backslash] (c :: text ≫= double_backslash))
      with false; [by rewrite IH|].
    simpl. rewrite bool_decide_eq_false_2; [done|congruence].
Qed.

(** The escaping is undone for every text that does not hold a backslash
    directly followed by a question mark. *)
Lemma decode_encode_without_backslash_qmark (text : str) :
  Str.contains [backslash; qmark] text = false ->
  decodeSafeEventDSC (encodeSafeEventDSC text) = text.
Proof.
  intros H. unfold decodeSafeEventDSC. cbv zeta.
  rewrite replace_guarded, encodeSafeEventDSC_chars, decode_first_pass by done.
  apply decode_second_pass.
Qed.

Lemma first_pass_spec (text : str) :
  Str.replace [backslash; qmark] [colon] (text ≫= encode_char) = first_pass text.
Proof.
  unfold Str.replace.
  remember (length text) as n eqn:Hn. revert text Hn.
  induction n as [n IH] using lt_wf_ind. intros text ->.
  destruct text as [|c rest]; [done|].
  rewrite bind_cons. cbn [first_pass].
  destruct (decide (c = backslash)) as [->|Hb].
  - rewrite bool_decide_eq_true_2 by done.
    change (encode_char backslash) with [backslash; backslash].
    cbn [app Str.replace_from].
    change (Str.startswith [backslash; qmark] (backslash :: backslash :: ?t))
      with false.
    change (Str.startswith [backslash; qmark] (backslash :: ?t))
      with (Str.startswith [qmark] t).
    rewrite startswith_qmark_encoded.
    destruct rest as [|d rest']; [done|].
    cbn [Str.startswith]. rewrite andb_true_r.
    destruct (decide (d = qmark)) as [->|Hq].
    + rewrite !bool_decide_eq_true_2 by done.
      rewrite bind_cons. change (encode_char qmark) with [qmark].
      cbn [app Str.replace_from length Nat.pred].
      rewrite (IH (length rest')); [done|simpl; lia|done].
    + rewrite !bool_decide_eq_false_2 by congruence.
      rewrite (IH (length (d :: rest'))); [done|simpl; lia|done].
  - rewrite bool_decide_eq_false_2 by done.
    destruct (decide (c = colon)) as [->|Hc].
    + change (encode_char colon) with [backslash; qmark].
      cbn [app Str.replace_from length Nat.pred].
      change (Str.startswith [backslash; qmark] (backslash :: qmark :: ?t))
        with true.
      cbn [app]. rewrite (IH (length rest)); [done|simpl; lia|done].
    + replace (encode_char c) with [c]
        by (unfold encode_char; by rewrite !decide_False).
      cbn [app Str.replace_from].
      replace (Str.startswith [backslash; qmark] (c :: rest ≫= encode_char))
        with false by (simpl; by rewrite bool_decide_eq_false_2 by congruence).
      rewrite (IH (length rest)); [done|simpl; lia|done].
Qed.

Lemma second_pass_spec (text : str) :
  Str.replace [backslash; backslash] [backslash] (first_pass text) = misread text.
Proof.
  unfold Str.replace.
  remember (length text) as n eqn:Hn. revert text Hn.
  induction n as [n IH] using lt_wf_ind. intros text ->.
  destruct text as [|c rest]; [done|].
  cbn [first_pass misread].
  destruct (decide (c = backslash)) as [->|Hb].
  - rewrite !bool_decide_eq_true_2 by done. cbn [andb].
    destruct rest as [|d rest']; [done|].
    destruct (decide (d = qmark)) as [->|Hq].
    + rewrite !bool_decide_eq_true_2 by done.
      cbn [Str.replace_from].
      change (Str.startswith [backslash; backslash] (backslash :: colon :: ?t))
        with false.
      change (Str.startswith [backslash; backslash] (colon :: ?t)) with false.
      cbv iota. rewrite (IH (length rest')); [done|simpl; lia|done].
    + rewrite !bool_decide_eq_false_2 by congruence.
      cbn [Str.replace_from length Nat.pred].
      change (Str.startswith [backslash; backslash] (backslash :: backslash :: ?t))
        with true.
      cbn [app]. rewrite (IH (length (d :: rest'))); [done|simpl; lia|done].
  - rewrite !bool_decide_eq_false_2 by done. cbn [andb Str.replace_from].
    replace (Str.startswith [backslash; backslash] (c :: first_pass rest))
      with false by (simpl; by rewrite bool_decide_eq_false_2 by congruence).
    rewrite (IH (length rest)); [|simpl; lia|done].
    by destruct rest.
Qed.

Lemma misread_fixed (text : str) :
  misread text = text <-> Str.contains [backslash; qmark] text = false.
Proof.
  induction text as [|c rest IH]; [done|].
  cbn [misread Str.contains]. destruct rest as [|d rest'].
  - split; [|done]. intros _. simpl. by rewrite andb_false_r.
  - cbn [Str.startswith]. rewrite andb_true_r.
    destruct (bool_decide (c = backslash) && bool_decide (d = qmark)) eqn:E.
    + apply andb_true_iff in E as [E1 E2].
      apply bool_decide_eq_true in E1 as ->, E2 as ->.
      rewrite !bool_decide_eq_true_2 by done. split; [|done].
      intros Heq. by inversion Heq.
    + assert (bool_decide (backslash = c) && bool_decide (qmark = d) = false) as ->.
      { apply andb_false_iff in E as [E|E]; apply bool_decide_eq_false in E;
          apply andb_false_iff; [left|right]; apply bool_decide_eq_false; congruence. }
      cbn [orb]. split.
      * intros Heq. apply IH. congruence.
      * intros Hno. apply IH in Hno. by f_equal.
Qed.

Lemma decodeSafeEventDSC_plain (text : str) :
  backslash ∉ text -> decodeSafeEventDSC text = text.
Proof.
  intros H.
  assert (Hnone : forall c, Str.contains [backslash; c] text = false).
  { intros c. induction text as [|d text IH]; [done|].
    apply not_elem_of_cons in H as [Hd H]. cbn [Str.contains Str.startswith].
    rewrite bool_decide_eq_false_2 by congruence. by apply IH. }
  unfold decodeSafeEventDSC. rewrite Hnone. unfold Str.replace.
  by apply replace_from_absent.
Qed.

(** Decoding an encoded text turns every question mark that directly
    follows a backslash into a colon. *)
Lemma decodeSafeEventDSC_encoded (text : str) :
  decodeSafeEventDSC (encodeSafeEventDSC text) = misread text.
Proof.
  unfold decodeSafeEventDSC. cbv zeta.
  rewrite replace_guarded, encodeSafeEventDSC_chars, first_pass_spec.
  apply second_pass_spec.
Qed.

(** C1: the round trip [decodeSafeEventDSC (encodeSafeEventDSC s) = s] does
    not hold for the text [\?]: it is encoded as [\\?], which the first pass
    of the decoder reads as a backslash and an escaped colon, so [\:] comes
    back. The encoded text holds no colon. *)
Theorem decode_encode_backslash_qmark :
  encodeSafeEventDSC [backslash; qmark] = [backslash; backslash; qmark] /\
  decodeSafeEventDSC (encodeSafeEventDSC [backslash; qmark]) = [backslash; colon] /\
  decodeSafeEventDSC (encodeSafeEventDSC [backslash; qmark]) <> [backslash; qmark] /\
  colon ∉ encodeSafeEventDSC [backslash; qmark].
Proof.
  split_and!; [reflexivity|reflexivity|by vm_compute|].
  apply encodeSafeEventDSC_no_colon.
Qed.

(** ** tick *)

Lemma tick_loop_rows (self : Schedule) (now : Z) (l0 : list Z) :
  forall (l1 p1 : list str) (l2 p2 : list Z) (acc : list Event),
  eventSchedule_1 self = p1 ++ l1 ->
  eventSchedule_2 self = p2 ++ l2 ->
  length p2 = length p1 ->
  length l1 = length l0 ->
  length l2 = length l0 ->
  tick_loop self now (zip (seq (length p1) (length l0)) l0) acc
  = inr (acc ++ (event_of_row <$>
                   filter (fun row => prevTimestamp self < row.1.1 <= now)
                          (zip (zip l0 l1) l2))).
Proof.
  induction l0 as [|t l0 IH]; intros l1 p1 l2 p2 acc H1 H2 Hp Hl1 Hl2.
  - simpl. by rewrite app_nil_r.
  - destruct l1 as [|d l1]; [done|]. destruct l2 as [|i l2]; [done|].
    simpl in Hl1, Hl2.
    cbn [length seq zip zip_with tick_loop fst snd].
    assert (eventSchedule_1 self !! length p1 = Some d) as ->
      by (rewrite H1; apply list_lookup_middle; done).
    assert (eventSchedule_2 self !! length p1 = Some i) as ->
      by (rewrite H2; apply list_lookup_middle; done).
    rewrite filter_cons. cbn [fst snd].
    assert (Hnext : forall acc',
      tick_loop self now (zip (seq (S (length p1)) (length l0)) l0) acc'
      = inr (acc' ++ (event_of_row <$>
                        filter (fun row => prevTimestamp self < row.1.1 <= now)
                               (zip (zip l0 l1) l2)))).
    { intros acc'.
      replace (S (length p1)) with (length (p1 ++ [d]))
        by (rewrite length_app; simpl; lia).
      apply (IH l1 (p1 ++ [d]) l2 (p2 ++ [i])).
      - by rewrite <- app_assoc.
      - by rewrite <- app_assoc.
      - rewrite !length_app. simpl. lia.
      - lia.
      - lia. }
    destruct (decide (prevTimestamp self < t <= now)) as [Hdue|Hdue].
    + rewrite !bool_decide_eq_true_2 by lia. cbn [andb].
      rewrite Hnext, fmap_cons, <- app_assoc. done.
    + destruct (bool_decide (t > prevTimestamp self)) eqn:E1;
        destruct (bool_decide (t <= now)) eqn:E2; cbn [andb];
        try apply Hnext.
      apply bool_decide_eq_true in E1, E2. lia.
Qed.

Lemma tick_loop_aligned (self : Schedule) (now : Z) :
  aligned self ->
  tick_loop self now (enumerate (eventSchedule_0 self)) []
  = inr (due_events (prevTimestamp self) now self).
Proof.
  intros [H1 H2]. unfold enumerate, due_events, rows.
  by apply (tick_loop_rows self now (eventSchedule_0 self)
              (eventSchedule_1 self) [] (eventSchedule_2 self) [] []).
Qed.

Lemma due_events_empty_window (prev now : Z) (self : Schedule) :
  now <= prev -> due_events prev now self = [].
Proof.
  intros H. unfold due_events.
  induction (rows self) as [|row l IH]; [done|].
  rewrite filter_cons, decide_False by lia. done.
Qed.

(** C10: whatever it returns or raises, [tick] leaves the three lists and
    [jsonTimings] as they were. *)
Theorem tick_frame (crrntTime : datetime) (self : Schedule) :
  let self' := state_of (tick crrntTime self) in
  eventSchedule_0 self' = eventSchedule_0 self /\
  eventSchedule_1 self' = eventSchedule_1 self /\
  eventSchedule_2 self' = eventSchedule_2 self /\
  jsonTimings self' = jsonTimings self /\
  allowedEventModes self' = allowedEventModes self.
Proof.
  unfold tick.
  by destruct (tick_loop self (weeklyTimestamp crrntTime)
                 (enumerate (eventSchedule_0 self)) []).
Qed.

(** The descriptor [add] stores splits into its three fields when the mode
    holds no colon. *)
Lemma split_no_sep (sep : ascii) (text : str) :
  sep ∉ text -> Str.split sep text = [text].
Proof.
  induction text as [|c text IH]; [done|].
  intros H. apply not_elem_of_cons in H as [Hc H].
  simpl. rewrite bool_decide_eq_false_2 by congruence. by rewrite IH.
Qed.

Lemma split_app_sep (sep : ascii) (field rest : str) :
  sep ∉ field -> Str.split sep (field ++ sep :: rest) = field :: Str.split sep rest.
Proof.
  induction field as [|c field IH]; intros H.
  - simpl. by rewrite bool_decide_eq_true_2.
  - apply not_elem_of_cons in H as [Hc H].
    simpl. rewrite bool_decide_eq_false_2 by congruence. by rewrite IH.
Qed.

Lemma decodeFields_descriptor (mode params sampleName : str) :
  colon ∉ mode ->
  decodeFields (mode ++ colon :: encodeSafeEventDSC params
                     ++ colon :: encodeSafeEventDSC sampleName)
  = [decodeSafeEventDSC mode;
     decodeSafeEventDSC (encodeSafeEventDSC params);
     decodeSafeEventDSC (encodeSafeEventDSC sampleName)].
Proof.
  intros H. unfold decodeFields.
  rewrite split_app_sep by done.
  rewrite split_app_sep by apply encodeSafeEventDSC_no_colon.
  rewrite split_no_sep by apply encodeSafeEventDSC_no_colon. done.
Qed.

Lemma filter_empty_window (prev now : Z) (events : list added) :
  now <= prev -> filter (fun ev => prev < added_timestamp ev <= now) events = [].
Proof.
  intros H. induction events as [|ev events IH]; [done|].
  by rewrite filter_cons, decide_False by lia.
Qed.

(** ** add *)

Lemma linear_scan_least (ids : list Z) (i : Z) :
  i <= linear_scan ids i /\
  linear_scan ids i ∉ ids /\
  forall j, i <= j < linear_scan ids i -> j ∈ ids.
Proof.
  funelim (linear_scan ids i).
  - destruct H as (Hle & Hnotin & Hbelow).
    split_and!; [lia|done|].
    intros j Hj. destruct (decide (j = i)) as [->|Hne]; [done|].
    apply Hbelow. lia.
  - split_and!; [lia|done|]. intros j Hj. lia.
Qed.

(** The id a call of [add] settles on is a draw that is not in the table,
    or what the scan from 0 finds. *)
Lemma draw_loop_result (randint : nat -> Z) (ids : list Z) (n newID : Z) :
  let r := draw_loop randint ids n newID in
  r ∉ ids /\
  (r = newID \/ (exists k, r = randint k) \/ r = linear_scan ids 0).
Proof.
  funelim (draw_loop randint ids n newID); cbv zeta in *.
  - split; [done|auto].
  - split; [apply linear_scan_least|auto].
  - destruct H as [Hnotin Hkind]. split; [done|].
    destruct Hkind as [Hk|[?|?]]; eauto.
Qed.

Lemma newEventID_fresh (randint : nat -> Z) (ids : list Z) :
  newEventID randint ids ∉ ids.
Proof. apply draw_loop_result. Qed.

Lemma newEventID_kind (randint : nat -> Z) (ids : list Z) :
  (exists k, newEventID randint ids = randint k)
  \/ newEventID randint ids = linear_scan ids 0.
Proof.
  destruct (draw_loop_result randint ids 1 (randint 0%nat)) as [_ H].
  unfold newEventID. cbv zeta in H. destruct H as [H|[H|H]]; eauto.
Qed.

Lemma add_allowed (randint : nat -> Z) (timestamp : Z) (mode params sampleName : str)
    (self : Schedule) :
  mode ∈ allowedEventModes self ->
  add randint timestamp mode params sampleName self
  = Return (newEventID randint (eventSchedule_2 self))
      (mkSchedule (eventSchedule_0 self ++ [timestamp])
         (eventSchedule_1 self
            ++ [mode ++ colon :: encodeSafeEventDSC params
                     ++ colon :: encodeSafeEventDSC sampleName])
         (eventSchedule_2 self ++ [newEventID randint (eventSchedule_2 self)])
         (jsonTimings self) (allowedEventModes self) (prevTimestamp self)).
Proof. intros H. unfold add. by rewrite bool_decide_eq_true_2. Qed.

Lemma add_not_allowed (randint : nat -> Z) (timestamp : Z)
    (mode params sampleName : str) (self : Schedule) :
  mode ∉ allowedEventModes self ->
  add randint timestamp mode params sampleName self = Raise ValueError self.
Proof. intros H. unfold add. by rewrite bool_decide_eq_false_2. Qed.

(** ** remove *)

Lemma index_Some {A} `{EqDecision A} (x : A) (l : list A) (k : nat) :
  index x l = Some k <->
  l !! k = Some x /\ forall j, (j < k)%nat -> l !! j <> Some x.
Proof.
  revert k. induction l as [|y l IH]; intros k; simpl.
  - split; [done|]. by intros [? _].
  - destruct (decide (y = x)) as [->|Hne].
    + split.
      * intros [= <-]. split; [done|]. intros j Hj. lia.
      * intros [Hk Hfirst]. destruct k as [|k]; [done|].
        exfalso. apply (Hfirst 0%nat); [lia|done].
    + rewrite fmap_Some. split.
      * intros (k' & Hk' & ->). apply IH in Hk' as [Hk Hfirst]. split; [done|].
        intros [|j] Hj; simpl; [congruence|]. apply Hfirst. lia.
      * intros [Hk Hfirst]. destruct k as [|k]; [simpl in Hk; congruence|].
        exists k. split; [|done].
        apply IH. split; [done|]. intros j Hj. apply (Hfirst (S j)). lia.
Qed.

Lemma index_None {A} `{EqDecision A} (x : A) (l : list A) :
  index x l = None <-> x ∉ l.
Proof.
  induction l as [|y l IH]; simpl.
  - split; [intros _; apply not_elem_of_nil|done].
  - rewrite not_elem_of_cons. destruct (decide (y = x)) as [->|Hne].
    + split; [done|]. by intros [? _].
    + destruct (index x l); simpl.
      * split; [done|]. intros [_ Hl]. by apply IH in Hl.
      * split; [|done]. intros _. split; [congruence|]. by apply IH.
Qed.

Lemma index_elem_of {A} `{EqDecision A} (x : A) (l : list A) :
  x ∈ l -> exists k, index x l = Some k.
Proof.
  intros H. destruct (index x l) as [k|] eqn:E; [eauto|].
  by apply index_None in E.
Qed.

Lemma pop_Some {A} (i : nat) (l : list A) :
  (i < length l)%nat -> pop i l = Some (delete i l).
Proof. intros H. unfold pop. by rewrite decide_True. Qed.

Lemma pop_inv {A} (i : nat) (l l' : list A) :
  pop i l = Some l' -> l' = delete i l /\ (i < length l)%nat.
Proof. unfold pop. case_decide; [|done]. by intros [= <-]. Qed.

Lemma remove_found (eventID : Z) (self : Schedule) (rmID : nat) :
  aligned self ->
  index eventID (eventSchedule_2 self) = Some rmID ->
  remove eventID self
  = Return () (mkSchedule (delete rmID (eventSchedule_0 self))
                 (delete rmID (eventSchedule_1 self))
                 (delete rmID (eventSchedule_2 self))
                 (jsonTimings self) (allowedEventModes self) (prevTimestamp self)).
Proof.
  intros [H1 H2] Hidx. unfold remove. rewrite Hidx.
  apply index_Some in Hidx as [Hk _]. apply lookup_lt_Some in Hk.
  rewrite (pop_Some rmID (eventSchedule_0 self)) by lia. simpl.
  rewrite (pop_Some rmID (eventSchedule_1 self)) by lia. simpl.
  rewrite (pop_Some rmID (eventSchedule_2 self)) by lia. done.
Qed.

Lemma remove_not_found (eventID : Z) (self : Schedule) :
  eventID ∉ eventSchedule_2 self -> remove eventID self = Raise ValueError self.
Proof. intros H. apply index_None in H. unfold remove. by rewrite H. Qed.

Lemma remove_Return (eventID : Z) (self self' : Schedule) :
  remove eventID self = Return () self' ->
  exists rmID,
    index eventID (eventSchedule_2 self) = Some rmID /\
    (rmID < length (eventSchedule_0 self))%nat /\
    (rmID < length (eventSchedule_1 self))%nat /\
    self' = mkSchedule (delete rmID (eventSchedule_0 self))
              (delete rmID (eventSchedule_1 self))
              (delete rmID (eventSchedule_2 self))
              (jsonTimings self) (allowedEventModes self) (prevTimestamp self).
Proof.
  unfold remove. destruct (index _ _) as [rmID|]; [|done].
  destruct (pop rmID (eventSchedule_0 self)) as [l0|] eqn:E0; [|done]. simpl.
  destruct (pop rmID (eventSchedule_1 self)) as [l1|] eqn:E1; [|done]. simpl.
  destruct (pop rmID (eventSchedule_2 self)) as [l2|] eqn:E2; [|done].
  apply pop_inv in E0 as [-> ?], E1 as [-> ?], E2 as [-> ?].
  intros [= <-]. by exists rmID.
Qed.

(** ** Invariants of the reachable states *)

Lemma reachable_aligned (self : Schedule) : reachable self -> aligned self.
Proof.
  induction 1 as [modes t|self randint ts mode params sample id self' _ IH Hadd
                  |self id self' _ IH Hrem].
  - done.
  - destruct (decide (mode ∈ allowedEventModes self)) as [Hin|Hnotin].
    + rewrite add_allowed in Hadd by done. injection Hadd as _ <-.
      destruct IH as [H1 H2]. split; simpl; rewrite !length_app; simpl; lia.
    + by rewrite add_not_allowed in Hadd.
  - apply remove_Return in Hrem as (rmID & Hidx & Hlt0 & Hlt1 & ->).
    destruct IH as [H1 H2].
    split; simpl; rewrite !length_delete by (apply lookup_lt_is_Some; lia); lia.
Qed.

Lemma reachable_NoDup (self : Schedule) :
  reachable self -> NoDup (eventSchedule_2 self).
Proof.
  induction 1 as [modes t|self randint ts mode params sample id self' _ IH Hadd
                  |self id self' _ IH Hrem].
  - apply NoDup_nil_2.
  - destruct (decide (mode ∈ allowedEventModes self)) as [Hin|Hnotin].
    + rewrite add_allowed in Hadd by done. injection Hadd as _ <-. simpl.
      apply NoDup_app. split_and!; [done| |apply NoDup_singleton].
      intros x Hx Hx'. apply list_elem_of_singleton in Hx' as ->.
      by apply (newEventID_fresh randint (eventSchedule_2 self)).
    + by rewrite add_not_allowed in Hadd.
  - apply remove_Return in Hrem as (rmID & Hidx & _ & _ & ->). simpl.
    eapply sublist_NoDup; [|apply sublist_delete]. done.
Qed.

Lemma bell_table_reachable : reachable bell_table.
Proof.
  apply (reachable_add (init defaultEventModes monday_midnight) always_10000
           3600 (pystr "b") (pystr "l3") (pystr "bell1") 10000).
  - apply reachable_init.
  - reflexivity.
Qed.

Lemma always_10000_in_range : in_range always_10000.
Proof. intros k. unfold always_10000. lia. Qed.

(** ** tick on the events a table holds *)

Lemma holds_aligned (self : Schedule) (events : list added) :
  holds self events -> aligned self.
Proof.
  intros (H0 & H1 & H2). unfold aligned. by rewrite H0, H1, H2, !length_fmap.
Qed.

Lemma holds_rows (self : Schedule) (events : list added) :
  holds self events ->
  rows self
  = (fun ev => (added_timestamp ev,
                descriptor (added_mode ev) (added_params ev) (added_sampleName ev),
                added_eventID ev)) <$> events.
Proof.
  intros (H0 & H1 & H2). unfold rows. rewrite H0, H1, H2. clear.
  induction events as [|ev events IH]; [done|].
  rewrite !fmap_cons. cbn [zip zip_with]. by rewrite <- IH.
Qed.

(** The fields [tick] and [getEvent] decode from the descriptor of an
    added event. *)
Lemma decodeFields_added (ev : added) :
  well_read ev ->
  decodeFields (descriptor (added_mode ev) (added_params ev) (added_sampleName ev))
  = [added_mode ev; added_params ev; added_sampleName ev].
Proof.
  intros (Hcolon & Hback & Hparams & Hsample). unfold descriptor.
  rewrite decodeFields_descriptor by done.
  by rewrite decodeSafeEventDSC_plain, !decode_encode_without_backslash_qmark.
Qed.

Lemma due_events_holds (prev now : Z) (self : Schedule) (events : list added) :
  holds self events ->
  Forall well_read events ->
  due_events prev now self
  = reported <$> filter (fun ev => prev < added_timestamp ev <= now) events.
Proof.
  intros Hholds Hmodes. unfold due_events. rewrite (holds_rows self events Hholds).
  clear Hholds. induction Hmodes as [|ev events Hev _ IH]; [done|].
  rewrite fmap_cons, !filter_cons. cbn [fst snd].
  destruct (decide (prev < added_timestamp ev <= now)); [|exact IH].
  rewrite !fmap_cons, IH. f_equal.
  unfold event_of_row, reported. cbn [fst snd].
  by rewrite decodeFields_added.
Qed.

(** Every state reached by [add] and [remove] holds a list of events, each
    with an allowed mode. *)
Lemma reachable_holds (self : Schedule) :
  reachable self ->
  exists events,
    holds self events /\
    Forall (fun ev => added_mode ev ∈ allowedEventModes self) events.
Proof.
  induction 1 as [modes t|self randint ts mode params sample id self' _ IH Hadd
                  |self id self' _ IH Hrem].
  - by exists [].
  - destruct IH as (events & (H0 & H1 & H2) & Hmodes).
    destruct (decide (mode ∈ allowedEventModes self)) as [Hin|Hnotin];
      [|by rewrite add_not_allowed in Hadd].
    rewrite add_allowed in Hadd by done. injection Hadd as <- <-.
    exists (events ++ [mkAdded ts mode params sample
                         (newEventID randint (eventSchedule_2 self))]).
    split.
    + unfold holds. cbn [eventSchedule_0 eventSchedule_1 eventSchedule_2].
      by rewrite H0, H1, H2, !fmap_app.
    + cbn [allowedEventModes]. apply Forall_app. split; [done|].
      by apply Forall_singleton.
  - destruct IH as (events & (H0 & H1 & H2) & Hmodes).
    apply remove_Return in Hrem as (rmID & _ & _ & _ & ->).
    exists (delete rmID events). split.
    + unfold holds. cbn [eventSchedule_0 eventSchedule_1 eventSchedule_2].
      by rewrite H0, H1, H2, !list_fmap_delete.
    + cbn [allowedEventModes]. by apply Forall_delete.
Qed.

(** C3, as the code has it: on a table that holds events as [add] stores
    them, with modes that contain neither a colon nor a backslash and
    parameters and sample names that contain no backslash directly
    followed by a question mark, [tick] returns the events with
    [prevTimestamp < timestamp <= now], in table order, each as its
    timestamp, the list of its mode, parameters and sample name, and its
    id; there are none when [now <= prevTimestamp]; and the cursor is [now]
    afterwards. *)
Theorem tick_reports_due (crrntTime : datetime) (self : Schedule) (events : list added) :
  holds self events ->
  Forall well_read events ->
  let now := weeklyTimestamp crrntTime in
  tick crrntTime self
  = Return (reported <$> filter (fun ev => prevTimestamp self < added_timestamp ev <= now)
                           events)
      (set_prevTimestamp now self)
  /\ (now <= prevTimestamp self ->
      tick crrntTime self = Return [] (set_prevTimestamp now self))
  /\ prevTimestamp (state_of (tick crrntTime self)) = now.
Proof.
  intros Hholds Hmodes now. unfold tick. fold now.
  rewrite (tick_loop_aligned self now (holds_aligned self events Hholds)).
  rewrite (due_events_holds _ _ self events Hholds Hmodes).
  split_and!; [done| |done].
  intros Hnow. by rewrite filter_empty_window.
Qed.

Lemma tick_reports_due_witness :
  holds bell_table [mkAdded 3600 (pystr "b") (pystr "l3") (pystr "bell1") 10000] /\
  tick monday_one_am bell_table
  = Return [(3600, [pystr "b"; pystr "l3"; pystr "bell1"], 10000)]
      (set_prevTimestamp 3601 bell_table).
Proof.
  assert (H : holds bell_table
                [mkAdded 3600 (pystr "b") (pystr "l3") (pystr "bell1") 10000])
    by (by split_and!).
  split; [exact H|].
  apply (tick_reports_due monday_one_am bell_table _ H).
  apply Forall_singleton. split_and!; [| |reflexivity|reflexivity];
    intros Hin; apply list_elem_of_singleton in Hin; discriminate Hin.
Defined.

(** C3 as stated fails. [importTimings] stores arrays of any lengths: on
    [short_table] the one timestamp is due, the descriptor at its position
    is missing, [tick] raises [IndexError] and the cursor stays where it
    was. A mode may hold a colon when [allowedEventModes] has such a mode:
    the event [add] stored is then reported with four fields. And
    parameters [\?] are reported as [\:]. *)
Lemma tick_not_every_table :
  importTimings Json.loads
    (set_py_jsonTimings (pystr "[[3600], [], []]")
       (py_of (init defaultEventModes monday_midnight)))
  = Return () (py_of short_table) /\
  tick monday_one_am short_table = Raise IndexError short_table /\
  prevTimestamp (state_of (tick monday_one_am short_table))
  <> weeklyTimestamp monday_one_am /\
  add always_10000 3600 (pystr "a:b") [] [] (init [pystr "a:b"] monday_midnight)
  = Return 10000 colon_table /\
  tick monday_one_am colon_table
  = Return [(3600, [pystr "a"; pystr "b"; []; []], 10000)]
      (set_prevTimestamp 3601 colon_table) /\
  add always_10000 3600 (pystr "b") [backslash; qmark] []
    (init defaultEventModes monday_midnight)
  = Return 10000 qmark_table /\
  tick monday_one_am qmark_table
  = Return [(3600, [pystr "b"; [backslash; colon]; []], 10000)]
      (set_prevTimestamp 3601 qmark_table).
Proof.
  split_and!; [reflexivity|reflexivity|by vm_compute|reflexivity|reflexivity
               |reflexivity|reflexivity].
Qed.

(** The scenario of the specification: one bell at 01:00:00 on Monday, a
    tick one second later. *)
Example tick_bell_table :
  tick monday_one_am bell_table
  = Return [(3600, [pystr "b"; pystr "l3"; pystr "bell1"], 10000)]
      (set_prevTimestamp 3601 bell_table).
Proof. reflexivity. Qed.

(** C4: in every state reached from a new schedule by calls of [add] and
    [remove] that return, the stored ids are pairwise distinct; and there
    every [add] with an allowed mode returns, with an id that was not in the
    table, which it appends. *)
Theorem eventID_unique (self : Schedule) :
  reachable self ->
  NoDup (eventSchedule_2 self) /\
  forall randint timestamp mode params sampleName,
    mode ∈ allowedEventModes self ->
    exists eventID self',
      add randint timestamp mode params sampleName self = Return eventID self' /\
      eventID ∉ eventSchedule_2 self /\
      eventSchedule_2 self' = eventSchedule_2 self ++ [eventID] /\
      NoDup (eventSchedule_2 self').
Proof.
  intros Hreach. split; [by apply reachable_NoDup|].
  intros randint timestamp mode params sampleName Hmode.
  eexists _, _. split; [by apply add_allowed|].
  split; [apply newEventID_fresh|]. split; [done|].
  apply (reachable_NoDup _
           (reachable_add _ _ _ _ _ _ _ _ Hreach
              (add_allowed randint timestamp mode params sampleName self Hmode))).
Qed.

Lemma eventID_unique_witness :
  reachable bell_table /\ NoDup (eventSchedule_2 bell_table).
Proof.
  split; [exact bell_table_reachable|].
  apply (eventID_unique bell_table bell_table_reachable).
Defined.

(** C5, as the code has it: with draws in the range of [randint], the id
    [add] returns is not negative and not in the table; it is a draw between
    10000 and 99999, or the least integer from 0 on that is not in the
    table. *)
Theorem add_eventID_nonneg (randint : nat -> Z) (timestamp : Z)
    (mode params sampleName : str) (self self' : Schedule) (eventID : Z) :
  in_range randint ->
  add randint timestamp mode params sampleName self = Return eventID self' ->
  0 <= eventID /\
  eventID ∉ eventSchedule_2 self /\
  (10000 <= eventID <= 99999 \/
   forall j, 0 <= j < eventID -> j ∈ eventSchedule_2 self).
Proof.
  intros Hrange Hadd.
  destruct (decide (mode ∈ allowedEventModes self)) as [Hin|Hnotin];
    [|by rewrite add_not_allowed in Hadd].
  rewrite add_allowed in Hadd by done. injection Hadd as <- _.
  split_and!.
  - destruct (newEventID_kind randint (eventSchedule_2 self)) as [[k ->]| ->].
    + specialize (Hrange k). lia.
    + apply linear_scan_least.
  - apply newEventID_fresh.
  - destruct (newEventID_kind randint (eventSchedule_2 self)) as [[k ->]| ->].
    + left. apply Hrange.
    + right. apply linear_scan_least.
Qed.

Lemma add_eventID_nonneg_witness :
  in_range always_10000 /\
  add always_10000 3600 (pystr "b") (pystr "l3") (pystr "bell1")
    (init defaultEventModes monday_midnight)
  = Return 10000 bell_table /\
  0 <= 10000.
Proof.
  split; [exact always_10000_in_range|]. split; [reflexivity|].
  apply (add_eventID_nonneg always_10000 3600 (pystr "b") (pystr "l3")
           (pystr "bell1") (init defaultEventModes monday_midnight)
           bell_table 10000 always_10000_in_range eq_refl).
Defined.

(** C5 as stated fails: on the table that holds the id 10000, an [add]
    whose draws all give 10000 takes the scan from 0 and returns 0. *)
Lemma add_eventID_zero :
  reachable bell_table /\
  in_range always_10000 /\
  add always_10000 7200 (pystr "b") [] [] bell_table
  = Return 0 (mkSchedule [3600; 7200] [pystr "b:l3:bell1"; pystr "b::"]
                [10000; 0] [] defaultEventModes 0) /\
  ~ 0 < 0.
Proof.
  split; [exact bell_table_reachable|].
  split; [exact always_10000_in_range|].
  split; [reflexivity|lia].
Qed.

(** C6: [add] with a mode outside [allowedEventModes] raises [ValueError]
    and leaves the whole object as it was. *)
Theorem add_rejects_invalid_mode (randint : nat -> Z) (timestamp : Z)
    (mode params sampleName : str) (self : Schedule) :
  mode ∉ allowedEventModes self ->
  add randint timestamp mode params sampleName self = Raise ValueError self /\
  state_of (add randint timestamp mode params sampleName self) = self.
Proof.
  intros H. unfold add. rewrite bool_decide_eq_false_2 by done. done.
Qed.

Lemma add_rejects_invalid_mode_witness :
  pystr "x" ∉ allowedEventModes bell_table /\
  add always_10000 7200 (pystr "x") [] [] bell_table = Raise ValueError bell_table.
Proof.
  assert (H : pystr "x" ∉ allowedEventModes bell_table).
  { intros Hin. apply list_elem_of_In in Hin. simpl in Hin.
    repeat destruct Hin as [Hin|Hin]; try discriminate Hin. done. }
  split; [exact H|].
  apply (add_rejects_invalid_mode always_10000 7200 (pystr "x") [] [] bell_table H).
Defined.

(** C7: on a table whose three lists are aligned, [remove] of an id that is
    present deletes the first position holding it from each of the three
    lists, the entries before and after staying in order; [remove] of an id
    that is absent raises [ValueError] and changes nothing. *)
Theorem remove_correct (eventID : Z) (self : Schedule) :
  aligned self ->
  (eventID ∈ eventSchedule_2 self ->
   exists rmID,
     eventSchedule_2 self !! rmID = Some eventID /\
     (forall j, (j < rmID)%nat -> eventSchedule_2 self !! j <> Some eventID) /\
     remove eventID self
     = Return ()
         (mkSchedule
            (take rmID (eventSchedule_0 self) ++ drop (S rmID) (eventSchedule_0 self))
            (take rmID (eventSchedule_1 self) ++ drop (S rmID) (eventSchedule_1 self))
            (take rmID (eventSchedule_2 self) ++ drop (S rmID) (eventSchedule_2 self))
            (jsonTimings self) (allowedEventModes self) (prevTimestamp self)))
  /\ (eventID ∉ eventSchedule_2 self -> remove eventID self = Raise ValueError self).
Proof.
  intros Hal. split.
  - intros Hin. destruct (index_elem_of _ _ Hin) as [rmID Hidx].
    exists rmID. pose proof (proj1 (index_Some _ _ _) Hidx) as [Hk Hfirst].
    split_and!; [done|done|].
    rewrite <- !delete_take_drop. by apply remove_found.
  - apply remove_not_found.
Qed.

Lemma remove_correct_witness :
  aligned bell_table /\
  remove 10000 bell_table = Return () (init defaultEventModes monday_midnight) /\
  remove 5 bell_table = Raise ValueError bell_table.
Proof.
  assert (H : aligned bell_table) by done.
  split; [exact H|].
  destruct (remove_correct 5 bell_table H) as [_ Habsent].
  split; [reflexivity|].
  apply Habsent. intros Hin. apply list_elem_of_singleton in Hin. discriminate Hin.
Defined.

(** ** getEvent *)

(** X15: on an aligned table, a non-zero id that is in the table selects
    the event at the first position holding it, whatever the other two
    selectors. *)
Lemma getEvent_by_eventID (re_search : str -> str -> option bool)
    (eventID : Z) (eventTimestamp : option Z) (eventDscRegex : option str)
    (self : Schedule) :
  aligned self ->
  eventID <> 0 ->
  eventID ∈ eventSchedule_2 self ->
  exists evN timestamp eventDsc,
    index eventID (eventSchedule_2 self) = Some evN /\
    eventSchedule_0 self !! evN = Some timestamp /\
    eventSchedule_1 self !! evN = Some eventDsc /\
    getEvent re_search (Some eventID) eventTimestamp eventDscRegex self
    = inr (Some [(timestamp, decodeFields eventDsc, eventID)]).
Proof.
  intros [H1 H2] Hnz Hin. destruct (index_elem_of _ _ Hin) as [evN Hidx].
  pose proof (proj1 (index_Some _ _ _) Hidx) as [Hk _].
  pose proof (lookup_lt_Some _ _ _ Hk) as Hlt.
  destruct (lookup_lt_is_Some_2 (eventSchedule_0 self) evN) as [timestamp Ht]; [lia|].
  destruct (lookup_lt_is_Some_2 (eventSchedule_1 self) evN) as [eventDsc Hd]; [lia|].
  exists evN, timestamp, eventDsc. split_and!; [done..|].
  unfold getEvent. cbn [truthy_int default from_option id].
  rewrite bool_decide_eq_false_2, bool_decide_eq_true_2 by done. cbn [negb andb].
  rewrite Hidx. unfold eventAt, item. by rewrite Ht, Hd, Hk.
Qed.

Lemma getEvent_zero_present (re_search : str -> str -> option bool) :
  0 ∈ eventSchedule_2 zero_table /\
  getEvent re_search (Some 0) (Some 0) None zero_table = inr None.
Proof. split; [apply list_elem_of_here|done]. Qed.

(** ** JSON text *)

Module JsonFacts.

Lemma horner_pos (u : Decimal.uint) (acc : positive) :
  horner (Npos acc) u = Npos (Pos.of_uint_acc u acc).
Proof.
  revert acc. induction u; intros acc; cbn [horner Pos.of_uint_acc];
    [done|..]; rewrite <- IHu; f_equal; lia.
Qed.

Lemma horner_0 (u : Decimal.uint) : horner 0 u = Pos.of_uint u.
Proof.
  induction u; cbn [horner Pos.of_uint]; [done|done|..];
    change (0 * 10 + ?k)%N with k; apply horner_pos.
Qed.

Lemma scan_digits_uint (u : Decimal.uint) (acc : N) (count : nat) (rest : str) :
  delimited rest ->
  scan_digits acc count (digits_of_uint u ++ rest)
  = (horner acc u, (count + Decimal.nb_digits u)%nat, rest).
Proof.
  intros Hrest. revert acc count.
  induction u; intros acc count;
    cbn [digits_of_uint app horner Decimal.nb_digits scan_digits].
  { rewrite Nat.add_0_r. destruct rest as [|c rest]; [done|].
    destruct Hrest as [Hc _]. cbn [scan_digits]. by rewrite Hc. }
  all: match goal with
       | |- context [digit_of_char (char_of_digit ?k)] =>
           change (digit_of_char (char_of_digit k)) with (Some k)
       end;
       cbv beta iota; rewrite IHu; by rewrite Nat.add_succ_r.
Qed.

(** The decimal writing of a positive number has no leading zero. *)
Lemma to_uint_head (p : positive) : nonzero_head (Pos.to_uint p).
Proof.
  pose proof (DecimalPos.Unsigned.to_of (Pos.to_uint p)) as Hnorm.
  rewrite DecimalPos.Unsigned.of_to in Hnorm. cbn [N.to_uint] in Hnorm.
  pose proof (DecimalPos.Unsigned.to_uint_nonnil p) as Hnil.
  pose proof (DecimalPos.Unsigned.to_uint_nonzero p) as Hzero.
  destruct (Pos.to_uint p) as [|u| | | | | | | | | ] eqn:E; try done.
  rewrite DecimalFacts.unorm_D0 in Hnorm.
  assert (Hu : u <> Decimal.Nil) by (by intros ->).
  pose proof (DecimalFacts.nb_digits_unorm u Hu) as Hlen.
  rewrite <- Hnorm in Hlen. cbn [Decimal.nb_digits] in Hlen. lia.
Qed.




Lemma delimited_no_fraction (rest : str) :
  delimited rest -> scan_fraction rest = None /\ scan_exponent rest = None.
Proof.
  destruct rest as [|c rest]; [done|]. intros [_ H].
  unfold starts_fraction in H.
  apply orb_false_iff in H as [H He2]. apply orb_false_iff in H as [Hp He1].
  apply bool_decide_eq_false in Hp.
  unfold scan_fraction, scan_exponent. rewrite He1, He2. cbn [orb].
  destruct rest; [done|]. by rewrite decide_False.
Qed.

(** The first written digit of a number without leading zero. *)
Lemma digits_head (u : Decimal.uint) (rest : str) :
  nonzero_head u ->
  exists c s, digits_of_uint u ++ rest = c :: s
              /\ is_Some (digit_of_char c)
              /\ c <> char_of_digit 0 /\ c <> ascii_of_nat 45.
Proof. destruct u; try done; intros _; eexists _, _; split_and!; done. Qed.

Lemma in_limit (count : nat) :
  (count <= int_max_str_digits)%nat ->
  bool_decide (count <= int_max_str_digits)%nat = true.
Proof. intros H. by apply bool_decide_eq_true_2. Qed.

Lemma parse_number_uint (negative : bool) (u : Decimal.uint) (rest : str) :
  nonzero_head u ->
  delimited rest ->
  (Decimal.nb_digits u <= int_max_str_digits)%nat ->
  parse_number ((if negative then [ascii_of_nat 45] else []) ++ digits_of_uint u ++ rest)
  = inr (JInt (if negative then - Z.of_N (Pos.of_uint u) else Z.of_N (Pos.of_uint u)),
         rest).
Proof.
  intros Hu Hrest Hlimit.
  destruct (digits_head u rest Hu) as (c & s & Heq & Hc & Hzero & Hminus).
  destruct (delimited_no_fraction rest Hrest) as [Hfrac Hexp].
  assert (Hbody : scan_int_part (digits_of_uint u ++ rest)
                  = (Pos.of_uint u, Decimal.nb_digits u, rest)).
  { unfold scan_int_part. rewrite Heq, decide_False by done. rewrite <- Heq.
    rewrite scan_digits_uint by done. by rewrite horner_0. }
  assert (Hcount : exists k, Decimal.nb_digits u = S k)
    by (destruct u; try done; by eexists).
  destruct Hcount as [k Hk].
  unfold parse_number.
  destruct negative; cbn [app].
  - rewrite decide_True by done. rewrite Hbody, Hk, Hfrac. cbn [from_option id].
    rewrite Hexp, <- Hk, in_limit by done. done.
  - rewrite Heq, decide_False by done. rewrite <- Heq.
    rewrite Hbody, Hk, Hfrac. cbn [from_option id].
    rewrite Hexp, <- Hk, in_limit by done. done.
Qed.

Lemma parse_number_str_of_int (z : Z) (rest : str) :
  delimited rest ->
  (digits_of_int z <= int_max_str_digits)%nat ->
  parse_number (str_of_int z ++ rest) = inr (JInt z, rest).
Proof.
  intros Hrest Hlimit. destruct z as [|p|p]; unfold str_of_int.
  - destruct (delimited_no_fraction rest Hrest) as [Hfrac Hexp].
    unfold parse_number. cbn [app]. rewrite decide_False by done.
    unfold scan_int_part. rewrite decide_True by done.
    rewrite Hfrac. cbn [from_option id]. rewrite Hexp, in_limit; [done|].
    unfold int_max_str_digits. lia.
  - pose proof (parse_number_uint false (Pos.to_uint p) rest
                  (to_uint_head p) Hrest Hlimit) as H.
    cbn [app] in H. rewrite H. by rewrite DecimalPos.Unsigned.of_to.
  - pose proof (parse_number_uint true (Pos.to_uint p) rest
                  (to_uint_head p) Hrest Hlimit) as H.
    cbn [app] in H. cbn [app]. rewrite H. by rewrite DecimalPos.Unsigned.of_to.
Qed.

(** Reading back one written character. *)
Lemma parse_string_body_escape_char (c : ascii) (t : str) :
  parse_string_body (escape_char (N_of_ascii c) ++ t)
  = match parse_string_body t with
    | Some (v, rest) => Some (N_of_ascii c :: v, rest)
    | None => None
    end.
Proof. destruct c as [[] [] [] [] [] [] [] []]; reflexivity. Qed.

Lemma parse_string_body_escaped (s rest : str) :
  parse_string_body (concat (map escape_char (code_points s)) ++ dquote :: rest)
  = Some (code_points s, rest).
Proof.
  induction s as [|c s IH]; [done|].
  unfold code_points in *. rewrite fmap_cons.
  cbn [map concat]. rewrite <- app_assoc, parse_string_body_escape_char.
  by rewrite IH.
Qed.

Lemma eight_bit_code_points (s : list N) :
  forallb (fun n => bool_decide (n < 256)%N) s = true ->
  s = code_points (ascii_of_N <$> s).
Proof.
  induction s as [|n s IH]; [done|]. cbn [forallb].
  intros [Hn Hs]%andb_true_iff. apply bool_decide_eq_true in Hn.
  unfold code_points in *. rewrite !fmap_cons, <- IH by done.
  by rewrite N_ascii_embedding.
Qed.

(** Induction on a document and, at an array, on its elements. *)
Lemma json_nested_ind (P : json -> Prop) :
  P JNull ->
  (forall b, P (JBool b)) ->
  (forall z, P (JInt z)) ->
  (forall literal, P (JFloat literal)) ->
  (forall s, P (JStr s)) ->
  (forall l, Forall P l -> P (JArr l)) ->
  (forall members, Forall (fun member => P member.2) members -> P (JObj members)) ->
  forall v, P v.
Proof.
  intros Hnull Hbool Hint Hfloat Hstr Harr Hobj.
  refine (fix IH (v : json) : P v :=
            match v with
            | JNull => Hnull
            | JBool b => Hbool b
            | JInt z => Hint z
            | JFloat literal => Hfloat literal
            | JStr s => Hstr s
            | JArr l =>
                Harr l ((fix IHl (l : list json) : Forall P l :=
                           match l with
                           | [] => Forall_nil_2 P
                           | x :: l' => Forall_cons_2 P x l' (IH x) (IHl l')
                           end) l)
            | JObj members =>
                Hobj members
                  ((fix IHm (m : list (list N * json))
                       : Forall (fun member => P member.2) m :=
                      match m with
                      | [] => Forall_nil_2 _
                      | member :: m' =>
                          Forall_cons_2 (fun member => P member.2) member m'
                            (IH member.2) (IHm m')
                      end) members)
            end).
Qed.

Lemma int_start_value_start (c : ascii) : int_start c -> value_start c.
Proof.
  destruct c as [[] [] [] [] [] [] [] []]; intros [[d Hd]| Hc];
    try discriminate Hd; try discriminate Hc; by split.
Qed.

Lemma str_of_int_head (z : Z) (rest : str) :
  exists c s, str_of_int z ++ rest = c :: s /\ int_start c.
Proof.
  destruct z as [|p|p]; unfold str_of_int.
  - eexists _, _. split; [done|]. by left.
  - destruct (digits_head (Pos.to_uint p) rest (to_uint_head p))
      as (c & s & Heq & Hc & _).
    exists c, s. split; [done|]. by left.
  - eexists _, _. split; [done|]. by right.
Qed.

Lemma skip_ws_value_start (c : ascii) (s : str) :
  value_start c -> skip_ws (c :: s) = c :: s.
Proof. intros [Hws _]. cbn [skip_ws]. by rewrite Hws. Qed.

Lemma skip_ws_space (s : str) : skip_ws (" "%char :: s) = skip_ws s.
Proof. done. Qed.

Lemma parse_value_digit (fuel : nat) (c : ascii) (s : str) :
  is_Some (digit_of_char c) -> parse_value (S fuel) (c :: s) = parse_number (c :: s).
Proof.
  destruct c as [[] [] [] [] [] [] [] []]; intros [d Hd];
    try discriminate Hd; reflexivity.
Qed.

Lemma parse_value_minus (fuel : nat) (d : ascii) (s : str) :
  is_Some (digit_of_char d) ->
  parse_value (S fuel) (ascii_of_nat 45 :: d :: s) = parse_number (ascii_of_nat 45 :: d :: s).
Proof.
  destruct d as [[] [] [] [] [] [] [] []]; intros [k Hk];
    try discriminate Hk; reflexivity.
Qed.

Lemma parse_value_int (fuel : nat) (z : Z) (rest : str) :
  parse_value (S fuel) (str_of_int z ++ rest) = parse_number (str_of_int z ++ rest).
Proof.
  destruct z as [|p|p]; unfold str_of_int.
  - by apply parse_value_digit.
  - destruct (digits_head (Pos.to_uint p) rest (to_uint_head p))
      as (c & s & -> & Hc & _).
    by apply parse_value_digit.
  - cbn [app].
    destruct (digits_head (Pos.to_uint p) rest (to_uint_head p))
      as (c & s & -> & Hc & _).
    by apply parse_value_minus.
Qed.

Lemma join_items_cons (x : str) (y : str) (items : list str) :
  join_items (x :: y :: items) = x ++ pystr ", " ++ join_items (y :: items).
Proof. done. Qed.

Section RoundTrip.

Variable float_repr : str -> str.

Lemma text_of_head (v : json) (rest : str) :
  plain v = true ->
  exists c s, text_of float_repr v ++ rest = c :: s /\ value_start c.
Proof.
  destruct v as [|[]|z|literal|s|l|members]; cbn [text_of plain]; intros Hplain;
    try discriminate Hplain;
    try (eexists _, _; split; [done|by split]).
  destruct (str_of_int_head z rest) as (c & s & Heq & Hc).
  exists c, s. split; [done|]. by apply int_start_value_start.
Qed.

Lemma skip_ws_text_of (v : json) (rest : str) :
  plain v = true -> skip_ws (text_of float_repr v ++ rest) = text_of float_repr v ++ rest.
Proof.
  intros Hplain. destruct (text_of_head v rest Hplain) as (c & s & -> & Hc).
  by apply skip_ws_value_start.
Qed.

Lemma join_items_head (v : json) (l : list json) (rest : str) :
  plain v = true ->
  exists c s, join_items (map (text_of float_repr) (v :: l)) ++ rest = c :: s /\ value_start c.
Proof.
  intros Hplain. destruct l as [|v2 l]; cbn [map].
  - by apply text_of_head.
  - rewrite join_items_cons, <- app_assoc. by apply text_of_head.
Qed.

Lemma parse_elements_text_of (l : list json) :
  Forall (parses_back float_repr) l ->
  l <> [] ->
  forallb plain l = true ->
  forallb writable l = true ->
  forall fuel rest,
    (length (join_items (map (text_of float_repr) l)) + 1 < fuel)%nat ->
    parse_elements fuel (join_items (map (text_of float_repr) l) ++ ascii_of_nat 93 :: rest)
    = inr (l, rest).
Proof.
  induction 1 as [|v l Hv Hl IH]; [done|].
  cbn [forallb]. intros _ [Hpv Hpl]%andb_true_iff [Hwv Hwl]%andb_true_iff fuel rest Hfuel.
  destruct fuel as [|fuel]; [lia|]. cbn [parse_elements].
  destruct l as [|v2 l].
  - cbn [map join_items] in *.
    rewrite Hv; [|done|done|by split|lia]. done.
  - cbn [map] in *. rewrite join_items_cons in *.
    rewrite !length_app in Hfuel. cbn [pystr list_ascii_of_string length] in Hfuel.
    rewrite <- !app_assoc.
    rewrite Hv; [|done|done|by split|lia].
    cbn [mbind res_bind app pystr list_ascii_of_string].
    rewrite (skip_ws_value_start ","%char) by (by split).
    rewrite decide_True by done.
    rewrite skip_ws_space.
    assert (Hp2 : plain v2 = true) by (by apply andb_true_iff in Hpl as [? _]).
    destruct (join_items_head v2 l (ascii_of_nat 93 :: rest) Hp2)
      as (c & s & Heq & Hc).
    cbn [map] in Heq.
    rewrite Heq, skip_ws_value_start, <- Heq by done.
    rewrite IH; [done|done|done|done|lia].
Qed.

Lemma parse_value_text_of (v : json) : parses_back float_repr v.
Proof.
  induction v as [|b|z|literal|s|l IH|members _] using json_nested_ind;
    intros Hplain Hwritable fuel rest Hrest Hfuel;
    try discriminate Hplain;
    (destruct fuel as [|fuel]; [lia|]).
  - reflexivity.
  - by destruct b.
  - cbn [text_of]. rewrite parse_value_int.
    apply parse_number_str_of_int; [done|].
    by apply bool_decide_eq_true in Hwritable.
  - cbn [plain] in Hplain. apply eight_bit_code_points in Hplain.
    rewrite Hplain at 1.
    cbn [text_of parse_value app]. unfold dump_str. cbn [app].
    rewrite decide_True by done.
    rewrite <- app_assoc. cbn [app]. rewrite parse_string_body_escaped.
    cbn [scanned mbind res_bind]. by rewrite <- Hplain.
  - cbn [plain writable] in Hplain, Hwritable.
    cbn [text_of pystr list_ascii_of_string app parse_value] in *.
    rewrite decide_False by done. rewrite decide_False by done.
    rewrite decide_True by done.
    rewrite <- app_assoc. cbn [app].
    destruct l as [|v l].
    + reflexivity.
    + assert (Hpv : plain v = true) by (by apply andb_true_iff in Hplain as [? _]).
      destruct (join_items_head v l (ascii_of_nat 93 :: rest) Hpv)
        as (c & s & Heq & Hc).
      change "]"%char with (ascii_of_nat 93).
      rewrite Heq, skip_ws_value_start by done.
      rewrite decide_False by apply Hc. rewrite <- Heq.
      rewrite parse_elements_text_of; [done|done|done|done|done|].
      cbn [length] in Hfuel. rewrite length_app in Hfuel.
      cbn [length] in Hfuel. lia.
Qed.

(** A written document without floats and dicts, and with strings of
    8-bit characters, is read back as it was. *)
Lemma loads_dumps (v : json) (text : str) :
  plain v = true ->
  dumps float_repr v = Some text ->
  loads text = inr v.
Proof.
  unfold dumps. intros Hplain Hdumps.
  destruct (writable v) eqn:Hwritable; [|done]. injection Hdumps as <-.
  unfold loads.
  pose proof (skip_ws_text_of v [] Hplain) as Hskip.
  pose proof (parse_value_text_of v Hplain Hwritable
                (2 * length (text_of float_repr v) + 2)%nat [] I) as Hparse.
  rewrite app_nil_r in Hskip, Hparse.
  rewrite Hskip, Hparse; [done|lia].
Qed.

End RoundTrip.

Lemma startswith_drop (old text : str) :
  Str.startswith old text = true -> (length (drop (length old) text) + length old = length text)%nat.
Proof.
  revert text. induction old as [|a old IH]; intros [|b text] H; simpl in *;
    try done; try lia.
  apply andb_true_iff in H as [_ H]. apply IH in H. lia.
Qed.

(** *** The fuel of [loads] is enough

    A successful call leaves less text than it was given, so from twice
    the length of the text on the fuel no longer matters: [loads] never
    raises for lack of it. *)

Lemma skip_ws_length (s : str) : (length (skip_ws s) <= length s)%nat.
Proof.
  induction s as [|c s IH]; [done|].
  cbn [skip_ws]. destruct (is_ws c); simpl; lia.
Qed.

Lemma parse_string_body_length (s : str) (v : list N) (rest : str) :
  parse_string_body s = Some (v, rest) -> (length rest < length s)%nat.
Proof.
  remember (length s) as n eqn:Hn. revert s v rest Hn.
  induction n as [n IH] using lt_wf_ind. intros s v rest -> H.
  assert (Hrec : forall (t : str) (x : N),
             (length t < length s)%nat ->
             ('(v, rest) ← parse_string_body t; Some (x :: v, rest)) = Some (v, rest) ->
             (length rest < length t)%nat).
  { intros t x Ht Heq.
    destruct (parse_string_body t) as [[v' rest']|] eqn:E; [|done].
    injection Heq as _ <-. by apply (IH (length t) Ht t v'). }
  destruct s as [|c s1]; [done|]. cbn [parse_string_body] in H.
  destruct (decide (c = dquote)); [injection H as _ <-; simpl; lia|].
  destruct (decide (c = backslash)).
  - destruct s1 as [|esc s2]; [done|].
    destruct (decide (esc = ascii_of_nat 117)).
    + destruct s2 as [|h1 [|h2 [|h3 [|h4 s6]]]]; try done.
      destruct (unescape_hex h1 h2 h3 h4) as [uni|]; [|done].
      assert (Hsingle : ('(v, rest) ← parse_string_body s6; Some (uni :: v, rest))
                        = Some (v, rest) -> (length rest < S (S (S (S (S (S (length s6)))))))%nat).
      { intros Heq. apply Hrec in Heq; simpl; lia. }
      destruct (high_surrogate uni); [|by apply Hsingle].
      destruct s6 as [|b [|u [|g1 [|g2 [|g3 [|g4 s12]]]]]]; try (by apply Hsingle).
      destruct (_ && _); [|by apply Hsingle].
      destruct (unescape_hex g1 g2 g3 g4) as [uni2|]; [|done].
      destruct (low_surrogate uni2); [|by apply Hsingle].
      apply Hrec in H; simpl in *; lia.
    + destruct (unescape_letter esc); [|done].
      apply Hrec in H; simpl; lia.
  - destruct (decide (N_of_ascii c < 32)%N); [done|].
    apply Hrec in H; simpl; lia.
Qed.

Lemma scan_digits_length (s : str) :
  forall acc count n count' rest,
  scan_digits acc count s = (n, count', rest) ->
  (length rest + count' = length s + count)%nat.
Proof.
  induction s as [|c s IH]; intros acc count n count' rest H; cbn [scan_digits] in H.
  - injection H as _ <- <-. done.
  - destruct (digit_of_char c).
    + apply IH in H. simpl. lia.
    + injection H as _ <- <-. done.
Qed.

Lemma skip_digits_length (s : str) : (length (skip_digits s) <= length s)%nat.
Proof.
  unfold skip_digits.
  destruct (scan_digits 0 0 s) as [[n count] rest] eqn:E.
  apply scan_digits_length in E. simpl. lia.
Qed.

Lemma scan_int_part_length (body : str) (n : N) (count : nat) (rest : str) :
  scan_int_part body = (n, count, rest) ->
  (length rest + count = length body)%nat.
Proof.
  unfold scan_int_part. destruct body as [|c s1].
  - intros [= _ <- <-]. done.
  - destruct (decide (c = char_of_digit 0)).
    + intros [= _ <- <-]. simpl. lia.
    + intros H. apply scan_digits_length in H. lia.
Qed.

Lemma scan_fraction_length (s rest : str) :
  scan_fraction s = Some rest -> (length rest <= length s)%nat.
Proof.
  unfold scan_fraction. destruct s as [|c [|d s2]]; try done.
  destruct (decide (c = ascii_of_nat 46)); [|done].
  destruct (digit_of_char d); [|done].
  intros [= <-]. pose proof (skip_digits_length s2). simpl. lia.
Qed.

Lemma scan_exponent_length (s rest : str) :
  scan_exponent s = Some rest -> (length rest <= length s)%nat.
Proof.
  unfold scan_exponent. destruct s as [|c s1]; [done|].
  destruct (_ || _); [|done].
  destruct s1 as [|sign s']; [done|].
  destruct (_ || _).
  - destruct s' as [|d s3]; [done|]. destruct (digit_of_char d); [|done].
    intros [= <-]. pose proof (skip_digits_length s3). simpl. lia.
  - destruct (digit_of_char sign); [|done].
    intros [= <-]. pose proof (skip_digits_length s'). simpl. lia.
Qed.

Lemma parse_number_length (s rest : str) (v : json) :
  parse_number s = inr (v, rest) -> (length rest < length s)%nat.
Proof.
  unfold parse_number.
  set (split := match s with
                | [] => (false, [])
                | c :: s1 => if decide (c = ascii_of_nat 45) then (true, s1) else (false, s)
                end).
  assert (Hbody : (length split.2 <= length s)%nat).
  { subst split. destruct s as [|c s1]; [done|].
    destruct (decide (c = ascii_of_nat 45)); simpl; lia. }
  destruct split as [negative body]. cbn [snd] in Hbody.
  destruct (scan_int_part body) as [[n count] r] eqn:E.
  apply scan_int_part_length in E.
  destruct count as [|count]; [done|]. cbv zeta.
  destruct (scan_fraction r) as [r1|] eqn:E1; cbn [from_option id].
  - pose proof (scan_fraction_length _ _ E1) as H1.
    destruct (scan_exponent r1) as [r2|] eqn:E2; cbn [from_option id].
    + pose proof (scan_exponent_length _ _ E2) as H2.
      intros [= _ <-]. rewrite ?E2. cbn [from_option id]. lia.
    + intros [= _ <-]. rewrite ?E2. cbn [from_option id]. lia.
  - destruct (scan_exponent r) as [r2|] eqn:E2; cbn [from_option id].
    + pose proof (scan_exponent_length _ _ E2) as H2.
      intros [= _ <-]. rewrite ?E2. cbn [from_option id]. lia.
    + destruct (bool_decide _); [|done]. intros [= _ <-]. lia.
Qed.

Lemma parse_length (fuel : nat) :
  (forall s v rest,
     parse_value fuel s = inr (v, rest) -> (length rest < length s)%nat) /\
  (forall s l rest,
     parse_elements fuel s = inr (l, rest) -> (length rest < length s)%nat) /\
  (forall s pairs rest,
     parse_members fuel s = inr (pairs, rest) -> (length rest < length s)%nat).
Proof.
  induction fuel as [|fuel (IHv & IHe & IHm)]; [done|]. split_and!.
  - intros s v rest H. cbn [parse_value] in H.
    destruct s as [|c s1]; [done|].
    destruct (decide (c = dquote)).
    { destruct (parse_string_body s1) as [[v' rest']|] eqn:E; [|done].
      injection H as _ <-. apply parse_string_body_length in E. simpl. lia. }
    destruct (decide (c = ascii_of_nat 123)).
    { pose proof (skip_ws_length s1) as Hws.
      destruct (skip_ws s1) as [|c1 r]; [done|].
      destruct (decide (c1 = ascii_of_nat 125)).
      - injection H as _ <-. simpl in *. lia.
      - destruct (parse_members fuel (c1 :: r)) as [|[pairs rest']] eqn:E; [done|].
        injection H as _ <-. apply IHm in E. simpl in *. lia. }
    destruct (decide (c = ascii_of_nat 91)).
    { pose proof (skip_ws_length s1) as Hws.
      destruct (skip_ws s1) as [|c1 r]; [done|].
      destruct (decide (c1 = ascii_of_nat 93)).
      - injection H as _ <-. simpl in *. lia.
      - destruct (parse_elements fuel (c1 :: r)) as [|[l rest']] eqn:E; [done|].
        injection H as _ <-. apply IHe in E. simpl in *. lia. }
    destruct (Str.startswith (pystr "null") (c :: s1)) eqn:E1.
    { injection H as _ <-. apply startswith_drop in E1. simpl in *. lia. }
    destruct (Str.startswith (pystr "true") (c :: s1)) eqn:E2.
    { injection H as _ <-. apply startswith_drop in E2. simpl in *. lia. }
    destruct (Str.startswith (pystr "false") (c :: s1)) eqn:E3.
    { injection H as _ <-. apply startswith_drop in E3. simpl in *. lia. }
    destruct (Str.startswith (pystr "NaN") (c :: s1)) eqn:E4.
    { injection H as _ <-. apply startswith_drop in E4. simpl in *. lia. }
    destruct (Str.startswith (pystr "Infinity") (c :: s1)) eqn:E5.
    { injection H as _ <-. apply startswith_drop in E5. simpl in *. lia. }
    destruct (Str.startswith (pystr "-Infinity") (c :: s1)) eqn:E6.
    { injection H as _ <-. apply startswith_drop in E6. simpl in *. lia. }
    by apply parse_number_length in H.
  - intros s l rest H. cbn [parse_elements] in H.
    destruct (parse_value fuel s) as [|[v r1]] eqn:E; [done|].
    apply IHv in E. cbn [mbind res_bind] in H.
    pose proof (skip_ws_length r1) as Hws.
    destruct (skip_ws r1) as [|c r2]; [done|].
    destruct (decide (c = ascii_of_nat 44)).
    + pose proof (skip_ws_length r2) as Hws2.
      destruct (parse_elements fuel (skip_ws r2)) as [|[l' rest']] eqn:E'; [done|].
      injection H as _ <-. apply IHe in E'. simpl in *. lia.
    + destruct (decide (c = ascii_of_nat 93)); [|done].
      injection H as _ <-. simpl in *. lia.
  - intros s pairs rest H. cbn [parse_members] in H.
    destruct s as [|c s1]; [done|].
    destruct (decide (c = dquote)); [|done].
    destruct (parse_string_body s1) as [[k r0]|] eqn:E0; [|done].
    apply parse_string_body_length in E0. cbn [scanned mbind res_bind] in H.
    pose proof (skip_ws_length r0) as Hws0.
    destruct (skip_ws r0) as [|c1 r1]; [done|].
    destruct (decide (c1 = ascii_of_nat 58)); [|done].
    pose proof (skip_ws_length r1) as Hws1.
    destruct (parse_value fuel (skip_ws r1)) as [|[v r2]] eqn:E; [done|].
    apply IHv in E. cbn [mbind res_bind] in H.
    pose proof (skip_ws_length r2) as Hws2.
    destruct (skip_ws r2) as [|c2 r3]; [done|].
    destruct (decide (c2 = ascii_of_nat 44)).
    + pose proof (skip_ws_length r3) as Hws3.
      destruct (parse_members fuel (skip_ws r3)) as [|[pairs' rest']] eqn:E'; [done|].
      injection H as _ <-. apply IHm in E'. simpl in *. lia.
    + destruct (decide (c2 = ascii_of_nat 125)); [|done].
      injection H as _ <-. simpl in *. lia.
Qed.

Lemma parse_fuel (fuel : nat) :
  forall fuel',
  (forall s,
     (2 * length s + 1 <= fuel)%nat -> (2 * length s + 1 <= fuel')%nat ->
     parse_value fuel s = parse_value fuel' s) /\
  (forall s,
     (2 * length s + 2 <= fuel)%nat -> (2 * length s + 2 <= fuel')%nat ->
     parse_elements fuel s = parse_elements fuel' s) /\
  (forall s,
     (2 * length s + 2 <= fuel)%nat -> (2 * length s + 2 <= fuel')%nat ->
     parse_members fuel s = parse_members fuel' s).
Proof.
  induction fuel as [|fuel IH]; intros fuel'.
  { split_and!; intros s H; lia. }
  destruct fuel' as [|fuel'].
  { split_and!; intros s _ H; lia. }
  destruct (IH fuel') as (IHv & IHe & IHm). split_and!.
  - intros s Hfuel Hfuel'. cbn [parse_value].
    destruct s as [|c s1]; [done|].
    destruct (decide (c = dquote)); [done|].
    pose proof (skip_ws_length s1) as Hws.
    destruct (decide (c = ascii_of_nat 123)).
    { destruct (skip_ws s1) as [|c1 r]; [done|].
      destruct (decide (c1 = ascii_of_nat 125)); [done|].
      rewrite (IHm (c1 :: r)) by (simpl in *; lia). done. }
    destruct (decide (c = ascii_of_nat 91)); [|done].
    destruct (skip_ws s1) as [|c1 r]; [done|].
    destruct (decide (c1 = ascii_of_nat 93)); [done|].
    rewrite (IHe (c1 :: r)) by (simpl in *; lia). done.
  - intros s Hfuel Hfuel'. cbn [parse_elements].
    rewrite (IHv s) by lia.
    destruct (parse_value fuel' s) as [|[v r1]] eqn:E; [done|].
    apply (proj1 (parse_length _)) in E. cbn [mbind res_bind].
    pose proof (skip_ws_length r1) as Hws.
    destruct (skip_ws r1) as [|c r2]; [done|].
    destruct (decide (c = ascii_of_nat 44)); [|done].
    pose proof (skip_ws_length r2) as Hws2.
    rewrite (IHe (skip_ws r2)) by (simpl in *; lia). done.
  - intros s Hfuel Hfuel'. cbn [parse_members].
    destruct s as [|c s1]; [done|].
    destruct (decide (c = dquote)); [|done].
    destruct (parse_string_body s1) as [[k r0]|] eqn:E0; [|done].
    apply parse_string_body_length in E0. cbn [scanned mbind res_bind].
    pose proof (skip_ws_length r0) as Hws0.
    destruct (skip_ws r0) as [|c1 r1]; [done|].
    destruct (decide (c1 = ascii_of_nat 58)); [|done].
    pose proof (skip_ws_length r1) as Hws1.
    rewrite (IHv (skip_ws r1)) by (simpl in *; lia).
    destruct (parse_value fuel' (skip_ws r1)) as [|[v r2]] eqn:E; [done|].
    apply (proj1 (parse_length _)) in E. cbn [mbind res_bind].
    pose proof (skip_ws_length r2) as Hws2.
    destruct (skip_ws r2) as [|c2 r3]; [done|].
    destruct (decide (c2 = ascii_of_nat 44)); [|done].
    pose proof (skip_ws_length r3) as Hws3.
    rewrite (IHm (skip_ws r3)) by (simpl in *; lia). done.
Qed.

(** [loads] with any more fuel gives the same. *)
Lemma loads_fuel_enough (fuel : nat) (s : str) :
  (2 * length s + 2 <= fuel)%nat ->
  loads s = ('(v, rest) ← parse_value fuel (skip_ws s);
             match skip_ws rest with
             | [] => inr v
             | _ :: _ => inl JSONDecodeError
             end).
Proof.
  intros Hfuel. unfold loads.
  pose proof (skip_ws_length s) as Hws.
  by rewrite (proj1 (parse_fuel _ fuel) (skip_ws s)) by lia.
Qed.

End JsonFacts.

(** ** importTimings and exportTimings *)

Lemma importTimings_loaded (loads : str -> exn + json) (self : PySchedule)
    (v0 v1 v2 : json) (more : list json) :
  loads (py_jsonTimings self) = inr (JArr (v0 :: v1 :: v2 :: more)) ->
  importTimings loads self
  = Return () (mkPySchedule v0 v1 v2 (py_jsonTimings self)
                 (py_allowedEventModes self) (py_prevTimestamp self)).
Proof. intros H. unfold importTimings. by rewrite H. Qed.

(** A document that is an array of fewer than three elements: the arrays
    that could be indexed are replaced before [IndexError] is raised. *)
Lemma importTimings_short_array (loads : str -> exn + json) (self : PySchedule)
    (v0 v1 : json) :
  loads (py_jsonTimings self) = inr (JArr [v0; v1]) ->
  importTimings loads self
  = Raise IndexError (set_py_eventSchedule_1 v1 (set_py_eventSchedule_0 v0 self)).
Proof. intros H. unfold importTimings. by rewrite H. Qed.

(** C2, as the code has it: when the pending text does not parse, or
    parses to a value that has no element 0, [importTimings] raises and the
    object is as it was. *)
Theorem importTimings_parse_failure (loads : str -> exn + json) (self : PySchedule) :
  (exists e, loads (py_jsonTimings self) = inl e) \/
  (exists tData e, loads (py_jsonTimings self) = inr tData /\ getitem tData 0 = inl e) ->
  exists e, importTimings loads self = Raise e self
            /\ py_eventSchedule (state_of (importTimings loads self))
               = py_eventSchedule self.
Proof.
  unfold importTimings. intros [[e H]|(tData & e & H & Hitem)]; rewrite H.
  - by exists e.
  - rewrite Hitem. by exists e.
Qed.

Lemma importTimings_parse_failure_witness :
  Json.loads (py_jsonTimings (bell_object "[[1], [2")) = inl JSONDecodeError /\
  exists e, importTimings Json.loads (bell_object "[[1], [2")
            = Raise e (bell_object "[[1], [2").
Proof.
  assert (H : Json.loads (py_jsonTimings (bell_object "[[1], [2")) = inl JSONDecodeError)
    by reflexivity.
  split; [exact H|].
  destruct (importTimings_parse_failure Json.loads (bell_object "[[1], [2")
              (or_introl (ex_intro _ JSONDecodeError H))) as (e & He & _).
  by exists e.
Defined.

(** C2 as stated fails: the pending text [[[1], [2]]] is valid JSON, an
    array of length 2; [importTimings] raises [IndexError] after it has
    replaced the first two arrays. *)
Lemma importTimings_partial :
  Json.loads (pystr "[[1], [2]]") = inr (JArr [JArr [JInt 1]; JArr [JInt 2]]) /\
  importTimings Json.loads (bell_object "[[1], [2]]")
  = Raise IndexError
      (mkPySchedule (JArr [JInt 1]) (JArr [JInt 2]) (JArr [JInt 10000])
         (pystr "[[1], [2]]") defaultEventModes 0) /\
  py_eventSchedule (state_of (importTimings Json.loads (bell_object "[[1], [2]]")))
  <> py_eventSchedule (bell_object "[[1], [2]]").
Proof. split_and!; [reflexivity|reflexivity|by vm_compute]. Qed.

(** [exportTimings] raises exactly when the arrays hold an integer of more
    than 4300 digits; otherwise the pending text becomes the document of
    the three arrays and nothing else changes. *)
Lemma exportTimings_writable (float_repr : str -> str) (self : PySchedule) :
  exportTimings (Json.dumps float_repr) self
  = if writable (JArr (py_eventSchedule self))
    then Return () (set_py_jsonTimings
                      (text_of float_repr (JArr (py_eventSchedule self))) self)
    else Raise ValueError self.
Proof. unfold exportTimings, Json.dumps. by destruct (writable _). Qed.

Lemma importTimings_exportTimings (float_repr : str -> str)
    (self exported other : PySchedule) :
  plain (JArr (py_eventSchedule self)) = true ->
  exportTimings (Json.dumps float_repr) self = Return () exported ->
  py_jsonTimings other = py_jsonTimings exported ->
  importTimings Json.loads other
  = Return () (mkPySchedule (py_eventSchedule_0 self) (py_eventSchedule_1 self)
                 (py_eventSchedule_2 self) (py_jsonTimings other)
                 (py_allowedEventModes other) (py_prevTimestamp other)).
Proof.
  intros Hplain Hexport Htext. unfold exportTimings in Hexport.
  destruct (Json.dumps float_repr (JArr (py_eventSchedule self))) as [text|] eqn:E;
    [|done].
  injection Hexport as <-.
  apply (importTimings_loaded _ _ _ _ _ []).
  rewrite Htext. cbn [py_jsonTimings set_py_jsonTimings].
  by apply (JsonFacts.loads_dumps float_repr).
Qed.


(** The object of a table of integers and strings holds no float and no
    dict, and its strings are of 8-bit characters. *)
Lemma py_of_plain (self : Schedule) :
  plain (JArr (py_eventSchedule (py_of self))) = true.
Proof.
  cbn [plain py_eventSchedule py_of py_eventSchedule_0 py_eventSchedule_1
         py_eventSchedule_2 forallb].
  rewrite !andb_true_iff. split_and!; [| | |done].
  - by induction (eventSchedule_0 self).
  - induction (eventSchedule_1 self) as [|eventDsc l IH]; [done|].
    cbn [map forallb plain]. rewrite IH, andb_true_r.
    clear. induction eventDsc as [|c eventDsc IH]; [done|].
    unfold code_points in *. rewrite fmap_cons. cbn [forallb]. rewrite IH, andb_true_r.
    apply bool_decide_eq_true_2, N_ascii_bounded.
  - by induction (eventSchedule_2 self).
Qed.





(** * Further properties *)

(** ** Descriptor escaping *)

(** X2: decoding an encoded text gives the text with every question mark
    that directly follows a backslash turned into a colon; so the round
    trip gives the text back exactly when the text holds no backslash
    directly followed by a question mark. *)
Theorem decode_encode_misread (text : str) :
  decodeSafeEventDSC (encodeSafeEventDSC text) = misread text /\
  (decodeSafeEventDSC (encodeSafeEventDSC text) = text
   <-> Str.contains [backslash; qmark] text = false).
Proof.
  assert (H : decodeSafeEventDSC (encodeSafeEventDSC text) = misread text).
  { unfold decodeSafeEventDSC. cbv zeta.
    rewrite replace_guarded, encodeSafeEventDSC_chars, first_pass_spec.
    apply second_pass_spec. }
  split; [done|]. rewrite H. apply misread_fixed.
Qed.

(** X1: an encoded text holds no colon and as many characters more than
    the text as the text holds backslashes and colons; a text that holds
    neither is encoded as itself. *)
Theorem encodeSafeEventDSC_shape (text : str) :
  colon ∉ encodeSafeEventDSC text /\
  length (encodeSafeEventDSC text)
  = (length text
     + length (filter (fun c => c = backslash \/ c = colon) text))%nat /\
  (backslash ∉ text -> colon ∉ text -> encodeSafeEventDSC text = text).
Proof.
  split; [apply encodeSafeEventDSC_no_colon|].
  rewrite encodeSafeEventDSC_chars. split.
  - induction text as [|c text IH]; [done|].
    rewrite bind_cons, length_app, IH, filter_cons. unfold encode_char.
    destruct (decide (c = backslash)) as [->|Hb].
    + rewrite decide_True by auto. simpl. lia.
    + destruct (decide (c = colon)) as [->|Hc].
      * rewrite decide_True by auto. simpl. lia.
      * rewrite decide_False by tauto. simpl. lia.
  - induction text as [|c text IH]; [done|]. intros Hb Hc.
    apply not_elem_of_cons in Hb as [Hb Hb'], Hc as [Hc Hc'].
    rewrite bind_cons, IH by done. unfold encode_char.
    by rewrite !decide_False.
Qed.

Lemma encode_char_inj (c1 c2 : ascii) (t1 t2 : str) :
  encode_char c1 ++ t1 = encode_char c2 ++ t2 -> c1 = c2 /\ t1 = t2.
Proof.
  unfold encode_char.
  repeat case_decide; subst; cbn [app]; intros Heq;
    inversion Heq; subst; try done; exfalso; congruence.
Qed.

(** X3: two texts with the same encoding are the same text. *)
Theorem encodeSafeEventDSC_inj (text1 text2 : str) :
  encodeSafeEventDSC text1 = encodeSafeEventDSC text2 -> text1 = text2.
Proof.
  rewrite !encodeSafeEventDSC_chars. revert text2.
  induction text1 as [|c1 text1 IH]; intros [|c2 text2]; [done| | |].
  - rewrite bind_cons. unfold encode_char. by repeat case_decide.
  - rewrite bind_cons. unfold encode_char. by repeat case_decide.
  - rewrite !bind_cons. intros H. apply encode_char_inj in H as [-> H].
    f_equal. by apply IH.
Qed.

Lemma encodeSafeEventDSC_inj_witness :
  encodeSafeEventDSC (pystr "a:b") = encodeSafeEventDSC (pystr "a:b") /\
  pystr "a:b" = pystr "a:b".
Proof.
  split; [reflexivity|].
  apply (encodeSafeEventDSC_inj (pystr "a:b") (pystr "a:b") eq_refl).
Defined.

(** ** add *)

Lemma linear_scan_step (ids : list Z) (i : Z) :
  linear_scan ids i
  = if decide (i ∈ ids) then linear_scan ids (i + 1) else i.
Proof.
  funelim (linear_scan ids i);
    repeat match goal with H : decide _ = _ |- _ => rewrite H end; done.
Qed.

Lemma draw_loop_step (randint : nat -> Z) (ids : list Z) (n newID : Z) :
  draw_loop randint ids n newID
  = if decide (newID ∈ ids)
    then if decide (n + 1 > 100)
         then linear_scan ids 0
         else draw_loop randint ids (n + 1) (randint (Z.to_nat n))
    else newID.
Proof.
  funelim (draw_loop randint ids n newID);
    repeat match goal with H : decide _ = _ |- _ => rewrite H end; done.
Qed.

(** The loop after [m] more draws that are all in the table. *)
Lemma draw_loop_skip (randint : nat -> Z) (ids : list Z) (m n : nat) :
  (n + m < 100)%nat ->
  (forall j, (n <= j < n + m)%nat -> randint j ∈ ids) ->
  draw_loop randint ids (Z.of_nat (S n)) (randint n)
  = draw_loop randint ids (Z.of_nat (S (n + m))) (randint (n + m)%nat).
Proof.
  induction m as [|m IH]; intros Hlt Hin.
  - by rewrite Nat.add_0_r.
  - rewrite IH by (try lia; intros j Hj; apply Hin; lia).
    rewrite draw_loop_step.
    rewrite decide_True by (apply Hin; lia).
    rewrite decide_False by lia.
    replace (Z.of_nat (S (n + m)) + 1) with (Z.of_nat (S (n + S m))) by lia.
    replace (Z.to_nat (Z.of_nat (S (n + m)))) with (n + S m)%nat by lia.
    done.
Qed.

(** X4: the id [add] settles on is the first of its first 100 draws that
    is not in the table. *)
Theorem newEventID_first_free (randint : nat -> Z) (ids : list Z) (k : nat) :
  (k < 100)%nat ->
  (forall j, (j < k)%nat -> randint j ∈ ids) ->
  randint k ∉ ids ->
  newEventID randint ids = randint k.
Proof.
  intros Hk Hin Hfree. unfold newEventID.
  change 1 with (Z.of_nat 1).
  rewrite (draw_loop_skip randint ids k 0) by (try lia; intros j Hj; apply Hin; lia).
  rewrite draw_loop_step. by rewrite decide_False.
Qed.

Lemma newEventID_first_free_witness :
  always_10000 0%nat ∉ ([] : list Z) /\ newEventID always_10000 [] = 10000.
Proof.
  assert (H : always_10000 0%nat ∉ ([] : list Z)) by apply not_elem_of_nil.
  split; [exact H|].
  apply (newEventID_first_free always_10000 [] 0); [lia|intros j Hj; lia|exact H].
Defined.

(** X5: when the first 100 draws are all in the table, the id is the
    least integer from 0 on that is not in the table, whatever the next
    draw gives. *)
Theorem newEventID_fallback (randint : nat -> Z) (ids : list Z) :
  (forall j, (j < 100)%nat -> randint j ∈ ids) ->
  let i := newEventID randint ids in
  0 <= i /\ i ∉ ids /\ (forall j, 0 <= j < i -> j ∈ ids) /\ i <= Z.of_nat (length ids).
Proof.
  intros Hin. cbv zeta.
  assert (Hscan : newEventID randint ids = linear_scan ids 0).
  { unfold newEventID. change 1 with (Z.of_nat 1).
    rewrite (draw_loop_skip randint ids 99 0) by (try lia; intros j Hj; apply Hin; lia).
    rewrite draw_loop_step.
    rewrite decide_True by (apply Hin; lia). by rewrite decide_True by lia. }
  rewrite Hscan.
  destruct (linear_scan_least ids 0) as (Hle & Hnotin & Hbelow).
  split_and!; [done..|].
  assert (Hsub : seqZ 0 (linear_scan ids 0) ⊆+ ids).
  { apply NoDup_submseteq; [apply NoDup_seqZ|].
    intros j Hj. apply elem_of_seqZ in Hj. apply Hbelow. lia. }
  apply submseteq_length in Hsub. rewrite length_seqZ in Hsub. lia.
Qed.

Lemma newEventID_fallback_witness :
  (forall j, (j < 100)%nat -> always_10000 j ∈ [10000]) /\
  newEventID always_10000 [10000] ∉ [10000].
Proof.
  assert (H : forall j, (j < 100)%nat -> always_10000 j ∈ [10000])
    by (intros j _; apply list_elem_of_here).
  split; [exact H|].
  apply (newEventID_fallback always_10000 [10000] H).
Defined.

(** The descriptor [add] builds. *)
Lemma rows_snoc (self : Schedule) (timestamp eventID : Z) (eventDsc : str) :
  aligned self ->
  zip (zip (eventSchedule_0 self ++ [timestamp]) (eventSchedule_1 self ++ [eventDsc]))
      (eventSchedule_2 self ++ [eventID])
  = rows self ++ [(timestamp, eventDsc, eventID)].
Proof.
  intros [H1 H2]. unfold rows.
  rewrite (zip_with_app pair (eventSchedule_0 self) [timestamp]
             (eventSchedule_1 self) [eventDsc]) by lia.
  change (zip_with pair [timestamp] [eventDsc]) with [(timestamp, eventDsc)].
  rewrite (zip_with_app pair (zip (eventSchedule_0 self) (eventSchedule_1 self))
             [(timestamp, eventDsc)] (eventSchedule_2 self) [eventID])
    by (rewrite length_zip; lia).
  done.
Qed.

(** X6: on an aligned table, [add] with an allowed mode appends one row,
    [(timestamp, mode:params:sampleName, id)] with the two free texts
    encoded, after the rows there; the table stays aligned and the cursor,
    the pending text and the modes are untouched. *)
Theorem add_appends_row (randint : nat -> Z) (timestamp : Z)
    (mode params sampleName : str) (self : Schedule) :
  aligned self ->
  mode ∈ allowedEventModes self ->
  exists eventID self',
    add randint timestamp mode params sampleName self = Return eventID self' /\
    rows self'
    = rows self
      ++ [(timestamp,
           mode ++ colon :: encodeSafeEventDSC params
                ++ colon :: encodeSafeEventDSC sampleName,
           eventID)] /\
    aligned self' /\
    prevTimestamp self' = prevTimestamp self /\
    jsonTimings self' = jsonTimings self /\
    allowedEventModes self' = allowedEventModes self.
Proof.
  intros Hal Hmode. eexists _, _. split; [by apply add_allowed|].
  split; [by apply rows_snoc|]. split; [|done].
  destruct Hal as [H1 H2]. split; simpl; rewrite !length_app; simpl; lia.
Qed.

Lemma add_appends_row_witness :
  aligned bell_table /\
  pystr "l" ∈ allowedEventModes bell_table /\
  exists eventID self',
    add always_10000 7200 (pystr "l") (pystr "a:b") [] bell_table
    = Return eventID self' /\
    aligned self'.
Proof.
  assert (H1 : aligned bell_table) by done.
  assert (H2 : pystr "l" ∈ allowedEventModes bell_table)
    by (apply list_elem_of_further, list_elem_of_here).
  split; [exact H1|]. split; [exact H2|].
  destruct (add_appends_row always_10000 7200 (pystr "l") (pystr "a:b") []
              bell_table H1 H2) as (eventID & self' & Hadd & _ & Hal & _).
  exists eventID, self'. split; [exact Hadd|exact Hal].
Defined.

(** X7: when no allowed mode holds a colon, every descriptor of a reachable
    table splits into exactly three fields. *)
Theorem reachable_three_fields (self : Schedule) :
  reachable self ->
  (forall mode, mode ∈ allowedEventModes self -> colon ∉ mode) ->
  Forall (fun eventDsc => length (decodeFields eventDsc) = 3%nat)
         (eventSchedule_1 self).
Proof.
  induction 1 as [modes t|self randint ts mode params sample id self' _ IH Hadd
                  |self id self' _ IH Hrem]; intros Hmodes.
  - apply Forall_nil_2.
  - destruct (decide (mode ∈ allowedEventModes self)) as [Hin|Hnotin];
      [|by rewrite add_not_allowed in Hadd].
    rewrite add_allowed in Hadd by done. injection Hadd as _ <-.
    simpl in *. apply Forall_app. split; [by apply IH|].
    apply Forall_singleton. rewrite decodeFields_descriptor by auto. done.
  - apply remove_Return in Hrem as (rmID & _ & _ & _ & ->). simpl in *.
    apply Forall_delete. by apply IH.
Qed.

Lemma default_modes_no_colon (mode : str) :
  mode ∈ defaultEventModes -> colon ∉ mode.
Proof.
  intros Hin Hc. apply list_elem_of_In in Hin. simpl in Hin.
  repeat destruct Hin as [<-|Hin]; try done;
    apply list_elem_of_singleton in Hc; discriminate Hc.
Qed.

Lemma reachable_three_fields_witness :
  reachable bell_table /\
  Forall (fun eventDsc => length (decodeFields eventDsc) = 3%nat)
         (eventSchedule_1 bell_table).
Proof.
  split; [exact bell_table_reachable|].
  apply (reachable_three_fields bell_table bell_table_reachable
           default_modes_no_colon).
Defined.

(** X8: an event added to an aligned table with a timestamp inside the
    next window is reported by [tick] after the events that were due
    already, with the mode, parameters and sample name it was added with;
    this needs a mode without colon and backslash and free texts without a
    backslash directly followed by a question mark. *)
Theorem add_then_tick (randint : nat -> Z) (timestamp : Z)
    (mode params sampleName : str) (crrntTime : datetime) (self : Schedule) :
  aligned self ->
  mode ∈ allowedEventModes self ->
  colon ∉ mode -> backslash ∉ mode ->
  Str.contains [backslash; qmark] params = false ->
  Str.contains [backslash; qmark] sampleName = false ->
  prevTimestamp self < timestamp <= weeklyTimestamp crrntTime ->
  exists eventID self',
    add randint timestamp mode params sampleName self = Return eventID self' /\
    tick crrntTime self'
    = Return (due_events (prevTimestamp self) (weeklyTimestamp crrntTime) self
              ++ [(timestamp, [mode; params; sampleName], eventID)])
        (set_prevTimestamp (weeklyTimestamp crrntTime) self').
Proof.
  intros Hal Hmode Hcolon Hback Hparams Hsample Hdue.
  eexists _, _. split; [by apply add_allowed|].
  unfold tick. rewrite tick_loop_aligned.
  2:{ destruct Hal as [H1 H2]. split; simpl; rewrite !length_app; simpl; lia. }
  do 2 f_equal. unfold due_events at 1. unfold rows at 1. cbn [eventSchedule_0
    eventSchedule_1 eventSchedule_2 prevTimestamp].
  rewrite rows_snoc by done. rewrite filter_app, fmap_app. f_equal.
  rewrite filter_cons, decide_True by done.
  unfold event_of_row. cbn [fst snd fmap list_fmap filter list_filter].
  rewrite decodeFields_descriptor by done.
  rewrite decodeSafeEventDSC_plain by done.
  by rewrite !decode_encode_without_backslash_qmark.
Qed.

Lemma add_then_tick_witness :
  exists eventID self',
    add always_10000 3600 (pystr "b") (pystr "l3") (pystr "bell:1")
      (init defaultEventModes monday_midnight)
    = Return eventID self' /\
    tick monday_one_am self'
    = Return [(3600, [pystr "b"; pystr "l3"; pystr "bell:1"], eventID)]
        (set_prevTimestamp 3601 self').
Proof.
  apply (add_then_tick always_10000 3600 (pystr "b") (pystr "l3") (pystr "bell:1")
           monday_one_am (init defaultEventModes monday_midnight)).
  - done.
  - apply list_elem_of_here.
  - intros H. apply list_elem_of_singleton in H. discriminate H.
  - intros H. apply list_elem_of_singleton in H. discriminate H.
  - reflexivity.
  - reflexivity.
  - vm_compute. split; [reflexivity|discriminate].
Defined.

Lemma index_snoc_fresh {A} `{EqDecision A} (x : A) (l : list A) :
  x ∉ l -> index x (l ++ [x]) = Some (length l).
Proof.
  induction l as [|y l IH]; intros H; simpl.
  - by rewrite decide_True.
  - apply not_elem_of_cons in H as [Hne H].
    rewrite decide_False by congruence. by rewrite IH.
Qed.

(** X9: after [add] on an aligned table with a mode that holds neither a
    colon nor a backslash, [getEvent] with the returned id, when it is not
    0, answers the one new event whatever the other two selectors: its
    timestamp, its mode, its parameters and sample name as the decoder
    gives them back (the texts that were added when these hold no
    backslash directly followed by a question mark), and its id. The id 0
    is not looked up. *)
Theorem add_then_getEvent (re_search : str -> str -> option bool)
    (randint : nat -> Z) (timestamp : Z) (mode params sampleName : str)
    (eventTimestamp : option Z) (eventDscRegex : option str) (self : Schedule) :
  aligned self ->
  mode ∈ allowedEventModes self ->
  colon ∉ mode -> backslash ∉ mode ->
  exists eventID self',
    add randint timestamp mode params sampleName self = Return eventID self' /\
    (eventID <> 0 ->
     getEvent re_search (Some eventID) eventTimestamp eventDscRegex self'
     = inr (Some [(timestamp, [mode; misread params; misread sampleName], eventID)])) /\
    (eventID <> 0 ->
     Str.contains [backslash; qmark] params = false ->
     Str.contains [backslash; qmark] sampleName = false ->
     getEvent re_search (Some eventID) eventTimestamp eventDscRegex self'
     = inr (Some [(timestamp, [mode; params; sampleName], eventID)])) /\
    (eventID = 0 -> getEvent re_search (Some eventID) None None self' = inr None).
Proof.
  intros [H1 H2] Hmode Hcolon Hback. eexists _, _. split; [by apply add_allowed|].
  pose proof (newEventID_fresh randint (eventSchedule_2 self)) as Hfresh.
  assert (Hget : newEventID randint (eventSchedule_2 self) <> 0 ->
    getEvent re_search (Some (newEventID randint (eventSchedule_2 self)))
      eventTimestamp eventDscRegex
      (mkSchedule (eventSchedule_0 self ++ [timestamp])
         (eventSchedule_1 self
            ++ [mode ++ colon :: encodeSafeEventDSC params
                     ++ colon :: encodeSafeEventDSC sampleName])
         (eventSchedule_2 self ++ [newEventID randint (eventSchedule_2 self)])
         (jsonTimings self) (allowedEventModes self) (prevTimestamp self))
    = inr (Some [(timestamp, [mode; misread params; misread sampleName],
                  newEventID randint (eventSchedule_2 self))])).
  { intros Hnz. unfold getEvent.
    cbn [truthy_int default from_option id eventSchedule_0 eventSchedule_1
           eventSchedule_2].
    rewrite bool_decide_eq_false_2 by done.
    rewrite bool_decide_eq_true_2
      by (apply elem_of_app; right; apply list_elem_of_here).
    cbn [negb andb]. rewrite index_snoc_fresh by done.
    unfold eventAt, item.
    cbn [eventSchedule_0 eventSchedule_1 eventSchedule_2].
    rewrite (list_lookup_middle (eventSchedule_0 self) [] timestamp) by lia.
    rewrite (list_lookup_middle (eventSchedule_1 self) []) by lia.
    rewrite (list_lookup_middle (eventSchedule_2 self) []) by lia.
    cbn [mbind res_bind].
    rewrite decodeFields_descriptor by done.
    by rewrite decodeSafeEventDSC_plain, !decodeSafeEventDSC_encoded. }
  split_and!.
  - exact Hget.
  - intros Hnz Hparams Hsample. rewrite Hget by done.
    apply misread_fixed in Hparams, Hsample. by rewrite Hparams, Hsample.
  - intros ->. done.
Qed.

Lemma add_then_getEvent_witness :
  exists eventID self',
    add always_10000 3600 (pystr "b") (pystr "l3") (pystr "bell:1")
      (init defaultEventModes monday_midnight)
    = Return eventID self' /\
    getEvent literal_search (Some eventID) None None self'
    = inr (Some [(3600, [pystr "b"; pystr "l3"; pystr "bell:1"], eventID)]).
Proof.
  destruct (add_then_getEvent literal_search always_10000 3600
              (pystr "b") (pystr "l3") (pystr "bell:1") None None
              (init defaultEventModes monday_midnight))
    as (eventID & self' & Hadd & _ & Hget & _).
  - done.
  - apply list_elem_of_here.
  - intros H. apply list_elem_of_singleton in H. discriminate H.
  - intros H. apply list_elem_of_singleton in H. discriminate H.
  - exists eventID, self'. split; [exact Hadd|].
    apply Hget; [|reflexivity|reflexivity].
    assert (Hid : add always_10000 3600 (pystr "b") (pystr "l3") (pystr "bell:1")
                    (init defaultEventModes monday_midnight)
                  = Return 10000
                      (mkSchedule [3600] [pystr "b:l3:bell\?1"] [10000] []
                         defaultEventModes 0)) by reflexivity.
    rewrite Hid in Hadd. injection Hadd as <- _. discriminate.
Defined.

(** X10: on an aligned table, [add] followed by [remove] of the returned id
    gives back the object as it was before the [add]. *)
Theorem add_then_remove (randint : nat -> Z) (timestamp : Z)
    (mode params sampleName : str) (self : Schedule) :
  aligned self ->
  mode ∈ allowedEventModes self ->
  exists eventID self',
    add randint timestamp mode params sampleName self = Return eventID self' /\
    remove eventID self' = Return () self.
Proof.
  intros [H1 H2] Hmode. eexists _, _. split; [by apply add_allowed|].
  pose proof (newEventID_fresh randint (eventSchedule_2 self)) as Hfresh.
  unfold remove. cbn [eventSchedule_2]. rewrite index_snoc_fresh by done.
  unfold pop.
  cbn [eventSchedule_0 eventSchedule_1 eventSchedule_2 set_eventSchedule_0
         set_eventSchedule_1 set_eventSchedule_2 jsonTimings allowedEventModes
         prevTimestamp].
  rewrite !length_app. cbn [length].
  rewrite !decide_True by lia.
  cbn [eventSchedule_0 eventSchedule_1 eventSchedule_2 set_eventSchedule_0
         set_eventSchedule_1 set_eventSchedule_2 jsonTimings allowedEventModes
         prevTimestamp].
  assert (Hd0 : delete (length (eventSchedule_2 self))
                  (eventSchedule_0 self ++ [timestamp]) = eventSchedule_0 self).
  { rewrite H2, delete_middle. apply app_nil_r. }
  assert (Hd1 : forall d, delete (length (eventSchedule_2 self))
                  (eventSchedule_1 self ++ [d]) = eventSchedule_1 self).
  { intros d. rewrite H2, <- H1, delete_middle. apply app_nil_r. }
  assert (Hd2 : forall i, delete (length (eventSchedule_2 self))
                  (eventSchedule_2 self ++ [i]) = eventSchedule_2 self).
  { intros i. rewrite delete_middle. apply app_nil_r. }
  rewrite Hd0, Hd1, Hd2. by destruct self.
Qed.

Lemma add_then_remove_witness :
  aligned bell_table /\
  exists eventID self',
    add always_10000 7200 (pystr "l") [] [] bell_table = Return eventID self' /\
    remove eventID self' = Return () bell_table.
Proof.
  assert (H : aligned bell_table) by done.
  split; [exact H|].
  apply (add_then_remove always_10000 7200 (pystr "l") [] [] bell_table H).
  apply list_elem_of_further, list_elem_of_here.
Defined.

(** ** remove *)

Lemma NoDup_delete_lookup {A} (l : list A) (k : nat) (x : A) :
  NoDup l -> l !! k = Some x -> x ∉ delete k l.
Proof.
  intros Hnd Hk. rewrite delete_take_drop.
  rewrite <- (take_drop_middle l k x Hk) in Hnd.
  apply NoDup_app in Hnd as (_ & Hdisj & Hnd).
  apply NoDup_cons in Hnd as [Hx _].
  intros Hin. apply elem_of_app in Hin as [Hin|Hin]; [|done].
  apply (Hdisj x Hin). apply list_elem_of_here.
Qed.

(** X11: in a reachable table, after [remove] of an id that is present the
    id is nowhere in the table, and [getEvent] with it alone answers
    [None]. *)
Theorem remove_then_getEvent (re_search : str -> str -> option bool)
    (eventID : Z) (self : Schedule) :
  reachable self ->
  eventID ∈ eventSchedule_2 self ->
  exists self',
    remove eventID self = Return () self' /\
    eventID ∉ eventSchedule_2 self' /\
    length (eventSchedule_2 self') = Nat.pred (length (eventSchedule_2 self)) /\
    getEvent re_search (Some eventID) None None self' = inr None.
Proof.
  intros Hreach Hin.
  pose proof (reachable_aligned self Hreach) as Hal.
  pose proof (reachable_NoDup self Hreach) as Hnd.
  destruct (index_elem_of _ _ Hin) as [rmID Hidx].
  pose proof (proj1 (index_Some _ _ _) Hidx) as [Hk _].
  eexists. split; [by apply remove_found|].
  assert (Hgone : eventID ∉ delete rmID (eventSchedule_2 self))
    by (by apply NoDup_delete_lookup).
  split; [done|]. split.
  - cbn [eventSchedule_2]. rewrite length_delete by eauto. lia.
  - unfold getEvent. cbn [truthy_int default from_option id eventSchedule_2].
    rewrite (bool_decide_eq_false_2 (eventID ∈ _)) by done.
    by rewrite andb_false_r.
Qed.

Lemma remove_then_getEvent_witness :
  reachable bell_table /\
  10000 ∈ eventSchedule_2 bell_table /\
  exists self', remove 10000 bell_table = Return () self'.
Proof.
  assert (H : 10000 ∈ eventSchedule_2 bell_table) by apply list_elem_of_here.
  split; [exact bell_table_reachable|]. split; [exact H|].
  destruct (remove_then_getEvent (fun _ _ => Some false) 10000 bell_table
              bell_table_reachable H) as (self' & Hrem & _).
  by exists self'.
Defined.

(** ** tick *)

Lemma filter_window (prev mid now : Z) (l : list (Z * str * Z)) :
  prev <= mid -> mid <= now ->
  filter (fun row => prev < row.1.1 <= mid) l
  ++ filter (fun row => mid < row.1.1 <= now) l
  ≡ₚ filter (fun row => prev < row.1.1 <= now) l.
Proof.
  intros H1 H2. induction l as [|row l IH]; [done|].
  rewrite !filter_cons.
  destruct (decide (prev < row.1.1 <= mid)), (decide (mid < row.1.1 <= now)),
    (decide (prev < row.1.1 <= now)); try lia; simpl; try done.
  - by rewrite IH.
  - rewrite <- IH. by rewrite Permutation_middle.
Qed.

(** X12: two ticks in a row on an aligned table, the clock not going back:
    together they report the events due between the first cursor and the
    second reading, each once; a tick at an unchanged reading reports
    nothing. *)
Theorem tick_twice (crrntTime1 crrntTime2 : datetime) (self : Schedule) :
  aligned self ->
  prevTimestamp self <= weeklyTimestamp crrntTime1 ->
  weeklyTimestamp crrntTime1 <= weeklyTimestamp crrntTime2 ->
  exists toExecute1 toExecute2 self1 self2,
    tick crrntTime1 self = Return toExecute1 self1 /\
    tick crrntTime2 self1 = Return toExecute2 self2 /\
    toExecute1 ++ toExecute2
    ≡ₚ due_events (prevTimestamp self) (weeklyTimestamp crrntTime2) self /\
    (weeklyTimestamp crrntTime1 = weeklyTimestamp crrntTime2 ->
     toExecute2 = [] /\ self2 = self1).
Proof.
  intros Hal H1 H2. eexists _, _, _, _.
  split; [unfold tick; by rewrite tick_loop_aligned|].
  split; [unfold tick; by rewrite tick_loop_aligned|].
  split.
  - unfold due_events, rows. cbn [eventSchedule_0 eventSchedule_1 eventSchedule_2
      set_prevTimestamp prevTimestamp].
    rewrite <- fmap_app. apply fmap_Permutation. by apply filter_window.
  - intros Heq. split.
    + cbn [set_prevTimestamp prevTimestamp]. apply due_events_empty_window. lia.
    + by rewrite Heq.
Qed.

Lemma tick_twice_witness :
  exists toExecute1 toExecute2 self1 self2,
    tick monday_one_am bell_table = Return toExecute1 self1 /\
    tick monday_one_am self1 = Return toExecute2 self2.
Proof.
  destruct (tick_twice monday_one_am monday_one_am bell_table)
    as (e1 & e2 & s1 & s2 & Ht1 & Ht2 & _).
  - done.
  - vm_compute. discriminate.
  - reflexivity.
  - by exists e1, e2, s1, s2.
Defined.

Lemma tick_loop_raises (self : Schedule) (now : Z) (evs : list (nat * Z))
    (toExecute : list Event) (e : exn) :
  tick_loop self now evs toExecute = inl e -> e = IndexError.
Proof.
  revert toExecute. induction evs as [|ev evs IH]; intros toExecute; [done|].
  cbn [tick_loop]. destruct (_ && _); [|apply IH].
  destruct (eventSchedule_1 self !! ev.1); [|by intros [= <-]].
  destruct (eventSchedule_2 self !! ev.1); [apply IH|by intros [= <-]].
Qed.

(** X13: on a table whose three lists hold integers, strings and
    integers, as [__init__], [add] and [remove] leave them, [tick] raises
    nothing but [IndexError], only when the lists are not aligned, and then
    the object is as it was: the cursor is not moved. *)
Theorem tick_raises (crrntTime : datetime) (self self' : Schedule) (e : exn) :
  tick crrntTime self = Raise e self' ->
  e = IndexError /\ self' = self /\ ~ aligned self.
Proof.
  unfold tick.
  destruct (tick_loop self _ _ []) as [e'|toExecute] eqn:E; [|done].
  intros [= <- <-]. split; [by eapply tick_loop_raises|]. split; [done|].
  intros Hal. by rewrite tick_loop_aligned in E.
Qed.

(** The table with one timestamp and no descriptor. *)
Lemma tick_raises_witness :
  tick monday_one_am (mkSchedule [3600] [] [] [] defaultEventModes 0)
  = Raise IndexError (mkSchedule [3600] [] [] [] defaultEventModes 0) /\
  ~ aligned (mkSchedule [3600] [] [] [] defaultEventModes 0).
Proof.
  assert (H : tick monday_one_am (mkSchedule [3600] [] [] [] defaultEventModes 0)
              = Raise IndexError (mkSchedule [3600] [] [] [] defaultEventModes 0))
    by reflexivity.
  split; [exact H|].
  apply (tick_raises monday_one_am _ _ _ H).
Defined.

(** ** The weekly timestamp *)

(** X14: on readings of the clock within the week, the timestamp is
    between 0 and 686399, it orders the readings as the week does, and two
    readings with the same timestamp are the same reading. *)
Theorem weeklyTimestamp_order (t1 t2 : datetime) :
  valid_datetime t1 -> valid_datetime t2 ->
  0 <= weeklyTimestamp t1 <= 686399 /\
  (weeklyTimestamp t1 < weeklyTimestamp t2 <-> earlier t1 t2) /\
  (weeklyTimestamp t1 = weeklyTimestamp t2 -> t1 = t2).
Proof.
  unfold valid_datetime, earlier, weeklyTimestamp.
  destruct t1 as [w1 h1 m1 s1], t2 as [w2 h2 m2 s2]. cbn [weekday hour minute second].
  intros V1 V2. split_and!; [lia|lia|split; lia|].
  intros H. assert (w1 = w2) by lia. subst.
  assert (h1 = h2) by lia. subst. assert (m1 = m2) by lia. subst.
  f_equal. lia.
Qed.

Lemma weeklyTimestamp_order_witness :
  valid_datetime monday_midnight /\ valid_datetime monday_one_am /\
  weeklyTimestamp monday_midnight < weeklyTimestamp monday_one_am.
Proof.
  assert (H1 : valid_datetime monday_midnight) by (vm_compute; intuition discriminate).
  assert (H2 : valid_datetime monday_one_am) by (vm_compute; intuition discriminate).
  split; [exact H1|]. split; [exact H2|].
  apply (weeklyTimestamp_order monday_midnight monday_one_am H1 H2).
  vm_compute. right. split; [reflexivity|]. left. reflexivity.
Defined.

(** ** getEvent *)

Lemma getEvent_by_eventID_witness :
  aligned bell_table /\
  exists evN timestamp eventDsc,
    index 10000 (eventSchedule_2 bell_table) = Some evN /\
    eventSchedule_0 bell_table !! evN = Some timestamp /\
    eventSchedule_1 bell_table !! evN = Some eventDsc /\
    getEvent (fun _ _ => Some false) (Some 10000) None None bell_table
    = inr (Some [(timestamp, decodeFields eventDsc, 10000)]).
Proof.
  assert (H : aligned bell_table) by done.
  split; [exact H|].
  apply (getEvent_by_eventID (fun _ _ => Some false) 10000 None None bell_table H).
  - discriminate.
  - apply list_elem_of_here.
Defined.

Lemma selector_misses_falls_through (x : option Z) (l : list Z) :
  selector_misses x l ->
  truthy_int x && bool_decide (default 0 x ∈ l) = false.
Proof.
  intros H. destruct x as [z|]; [|done].
  destruct (H z eq_refl) as [->|Hz]; [done|].
  cbn [default from_option id]. rewrite (bool_decide_eq_false_2 (z ∈ l)) by done.
  apply andb_false_r.
Qed.

(** X16: on an aligned table, when the id selector does not hit, a non-zero
    timestamp that is in the table selects the first event with that
    timestamp, whatever the pattern. *)
Theorem getEvent_by_timestamp (re_search : str -> str -> option bool)
    (eventID : option Z) (eventTimestamp : Z) (eventDscRegex : option str)
    (self : Schedule) :
  aligned self ->
  selector_misses eventID (eventSchedule_2 self) ->
  eventTimestamp <> 0 ->
  eventTimestamp ∈ eventSchedule_0 self ->
  exists evN eventDsc eventID',
    index eventTimestamp (eventSchedule_0 self) = Some evN /\
    eventSchedule_1 self !! evN = Some eventDsc /\
    eventSchedule_2 self !! evN = Some eventID' /\
    getEvent re_search eventID (Some eventTimestamp) eventDscRegex self
    = inr (Some [(eventTimestamp, decodeFields eventDsc, eventID')]).
Proof.
  intros [H1 H2] Hmiss Hnz Hin. destruct (index_elem_of _ _ Hin) as [evN Hidx].
  pose proof (proj1 (index_Some _ _ _) Hidx) as [Hk _].
  pose proof (lookup_lt_Some _ _ _ Hk) as Hlt.
  destruct (lookup_lt_is_Some_2 (eventSchedule_1 self) evN) as [eventDsc Hd]; [lia|].
  destruct (lookup_lt_is_Some_2 (eventSchedule_2 self) evN) as [eventID' Hi]; [lia|].
  exists evN, eventDsc, eventID'. split_and!; [done..|].
  unfold getEvent. rewrite selector_misses_falls_through by done.
  cbn [truthy_int default from_option id].
  rewrite bool_decide_eq_false_2, bool_decide_eq_true_2 by done. cbn [negb andb].
  rewrite Hidx. unfold eventAt, item. by rewrite Hk, Hd, Hi.
Qed.

Lemma getEvent_by_timestamp_witness :
  aligned bell_table /\
  exists evN eventDsc eventID',
    index 3600 (eventSchedule_0 bell_table) = Some evN /\
    eventSchedule_1 bell_table !! evN = Some eventDsc /\
    eventSchedule_2 bell_table !! evN = Some eventID' /\
    getEvent (fun _ _ => Some false) (Some 0) (Some 3600) None bell_table
    = inr (Some [(3600, decodeFields eventDsc, eventID')]).
Proof.
  assert (H : aligned bell_table) by done.
  split; [exact H|].
  apply (getEvent_by_timestamp (fun _ _ => Some false) (Some 0) 3600 None
           bell_table H).
  - intros z [= <-]. by left.
  - discriminate.
  - apply list_elem_of_here.
Defined.

Section GetEventRegex.

Variable re_search : str -> str -> option bool.

Lemma regex_loop_rows (self : Schedule) (eventDscRegex : str) (l0 : list Z) :
  forall (p0 : list Z) (l1 p1 : list str) (l2 p2 : list Z) (r : list Event),
  eventSchedule_0 self = p0 ++ l0 ->
  eventSchedule_1 self = p1 ++ l1 ->
  eventSchedule_2 self = p2 ++ l2 ->
  length p1 = length p0 -> length p2 = length p0 ->
  length l1 = length l0 -> length l2 = length l0 ->
  (forall eventDsc, eventDsc ∈ l1 -> re_search eventDscRegex eventDsc <> None) ->
  regex_loop re_search self eventDscRegex (seq (length p0) (length l0)) r
  = inr (r ++ (event_of_row <$>
                 filter (fun row => re_search eventDscRegex row.1.2 = Some true)
                        (zip (zip l0 l1) l2))).
Proof.
  induction l0 as [|t l0 IH]; intros p0 l1 p1 l2 p2 r H0 H1 H2 Hp1 Hp2 Hl1 Hl2 Hre.
  - simpl. by rewrite app_nil_r.
  - destruct l1 as [|d l1]; [done|]. destruct l2 as [|i l2]; [done|].
    simpl in Hl1, Hl2. cbn [length seq regex_loop]. unfold eventAt, item.
    rewrite H0, H1, H2.
    rewrite (list_lookup_middle p1 l1 d) by lia.
    rewrite (list_lookup_middle p0 l0 t) by lia.
    rewrite (list_lookup_middle p2 l2 i) by lia.
    cbn [mbind res_bind zip zip_with]. rewrite filter_cons. cbn [fst snd].
    assert (Hnext : forall r',
      regex_loop re_search self eventDscRegex (seq (S (length p0)) (length l0)) r'
      = inr (r' ++ (event_of_row <$>
                      filter (fun row => re_search eventDscRegex row.1.2 = Some true)
                             (zip (zip l0 l1) l2)))).
    { intros r'.
      replace (S (length p0)) with (length (p0 ++ [t]))
        by (rewrite length_app; simpl; lia).
      apply (IH (p0 ++ [t]) l1 (p1 ++ [d]) l2 (p2 ++ [i])).
      - by rewrite <- app_assoc.
      - by rewrite <- app_assoc.
      - by rewrite <- app_assoc.
      - rewrite !length_app. simpl. lia.
      - rewrite !length_app. simpl. lia.
      - lia.
      - lia.
      - intros x Hx. apply Hre. by apply list_elem_of_further. }
    pose proof (Hre d (list_elem_of_here _ _)) as Hd.
    destruct (re_search eventDscRegex d) as [[]|] eqn:E; [| |done].
    + rewrite decide_True by done. rewrite Hnext, fmap_cons, <- app_assoc. done.
    + rewrite decide_False by done. apply Hnext.
Qed.

(** X17: on an aligned table, when neither the id nor the timestamp
    selector hits and the pattern is not empty and compiles, [getEvent]
    answers the list, possibly empty, of all events whose stored
    descriptor matches, in table order. *)
Theorem getEvent_by_regex (eventID eventTimestamp : option Z)
    (eventDscRegex : str) (self : Schedule) :
  aligned self ->
  selector_misses eventID (eventSchedule_2 self) ->
  selector_misses eventTimestamp (eventSchedule_0 self) ->
  eventDscRegex <> [] ->
  (forall eventDsc, eventDsc ∈ eventSchedule_1 self ->
                    re_search eventDscRegex eventDsc <> None) ->
  getEvent re_search eventID eventTimestamp (Some eventDscRegex) self
  = inr (Some (event_of_row <$>
                 filter (fun row => re_search eventDscRegex row.1.2 = Some true)
                        (rows self))).
Proof.
  intros [H1 H2] Hid Hts Hrx Hre. unfold getEvent.
  rewrite !selector_misses_falls_through by done.
  destruct eventDscRegex as [|c rx]; [done|].
  cbn [truthy_str default from_option id].
  pose proof (regex_loop_rows self (c :: rx) (eventSchedule_0 self) []
                (eventSchedule_1 self) [] (eventSchedule_2 self) [] []
                eq_refl eq_refl eq_refl eq_refl eq_refl H1 H2 Hre) as Hloop.
  cbn [length app] in Hloop. by rewrite Hloop.
Qed.

End GetEventRegex.

Lemma getEvent_by_regex_witness :
  getEvent (fun _ _ => Some true) None None (Some (pystr "bell")) bell_table
  = inr (Some (event_of_row <$>
                 filter (fun row => (fun _ _ => Some true) (pystr "bell") row.1.2
                                    = Some true)
                        (rows bell_table))).
Proof.
  apply (getEvent_by_regex (fun _ _ => Some true) None None (pystr "bell") bell_table).
  - done.
  - intros z Hz. discriminate Hz.
  - intros z Hz. discriminate Hz.
  - discriminate.
  - intros d _. discriminate.
Defined.

(** X18: [getEvent] answers [None] exactly when neither the id nor the
    timestamp selector hits and the pattern is missing or empty; a pattern
    that is there never gives [None]. *)
Theorem getEvent_None (re_search : str -> str -> option bool)
    (eventID eventTimestamp : option Z) (eventDscRegex : option str)
    (self : Schedule) :
  getEvent re_search eventID eventTimestamp eventDscRegex self = inr None
  <-> selector_misses eventID (eventSchedule_2 self) /\
      selector_misses eventTimestamp (eventSchedule_0 self) /\
      truthy_str eventDscRegex = false.
Proof.
  assert (Hhit : forall x l,
    truthy_int x && bool_decide (default 0 x ∈ l) = true -> ~ selector_misses x l).
  { intros [z|] l Hx Hmiss; [|done]. apply andb_true_iff in Hx as [Hz Hin].
    apply negb_true_iff, bool_decide_eq_false in Hz.
    apply bool_decide_eq_true in Hin. by destruct (Hmiss z eq_refl). }
  assert (Hmiss : forall x l,
    truthy_int x && bool_decide (default 0 x ∈ l) = false -> selector_misses x l).
  { intros x l Hx z ->. apply andb_false_iff in Hx as [Hz|Hin].
    - left. apply negb_false_iff, bool_decide_eq_true in Hz. done.
    - right. by apply bool_decide_eq_false in Hin. }
  unfold getEvent.
  destruct (truthy_int eventID && _) eqn:E1.
  { split; [|intros [H _]; by apply Hhit in E1].
    destruct (index _ _); [|done]. by destruct (eventAt self n). }
  destruct (truthy_int eventTimestamp && _) eqn:E2.
  { split; [|intros (_ & H & _); by apply Hhit in E2].
    destruct (index _ _); [|done]. by destruct (eventAt self n). }
  destruct (truthy_str eventDscRegex) eqn:E3.
  { split; [|by intros (_ & _ & H)].
    by destruct (regex_loop _ _ _ _ _). }
  split; [|done]. intros _. split_and!; [by apply Hmiss|by apply Hmiss|done].
Qed.

(** The tuple [getEvent] builds for a position is the row there; a
    position beyond one of the three lists raises [IndexError]. *)
Lemma eventAt_rows (self : Schedule) (evN : nat) :
  eventAt self evN
  = match rows self !! evN with
    | Some row => inr (event_of_row row)
    | None => inl IndexError
    end.
Proof.
  unfold eventAt, item, rows. rewrite !lookup_zip_with.
  destruct (eventSchedule_0 self !! evN); [|done].
  destruct (eventSchedule_1 self !! evN); [|done].
  by destruct (eventSchedule_2 self !! evN).
Qed.

(** C9: a selector [eventID = 0] or [eventTimestamp = 0] counts as not
    given, whatever the table holds. With the id 0 the timestamp decides:
    one that is in the table and not 0 selects the first row that has it.
    With both 0 the pattern decides: [getEvent] answers the rows whose
    descriptor it matches. Without a pattern the answer is [None], which is
    not the empty list. *)
Theorem getEvent_zero_selector (re_search : str -> str -> option bool)
    (eventID eventTimestamp : option Z) (eventDscRegex : option str)
    (self : Schedule) :
  getEvent re_search (Some 0) eventTimestamp eventDscRegex self
  = getEvent re_search None eventTimestamp eventDscRegex self
  /\ getEvent re_search eventID (Some 0) eventDscRegex self
     = getEvent re_search eventID None eventDscRegex self
  /\ (forall t evN,
        t <> 0 -> index t (eventSchedule_0 self) = Some evN ->
        getEvent re_search (Some 0) (Some t) eventDscRegex self
        = match rows self !! evN with
          | Some row => inr (Some [event_of_row row])
          | None => inl IndexError
          end)
  /\ (forall rx,
        aligned self -> rx <> [] ->
        (forall eventDsc, eventDsc ∈ eventSchedule_1 self ->
                          re_search rx eventDsc <> None) ->
        getEvent re_search (Some 0) (Some 0) (Some rx) self
        = inr (Some (event_of_row <$>
                       filter (fun row => re_search rx row.1.2 = Some true)
                              (rows self))))
  /\ (truthy_str eventDscRegex = false ->
      getEvent re_search (Some 0) (Some 0) eventDscRegex self = inr None)
  /\ @inr exn (option (list Event)) None <> inr (Some []).
Proof.
  split_and!; [done|done| | | |done].
  - intros t evN Hnz Hidx. unfold getEvent.
    cbn [truthy_int default from_option id].
    rewrite (bool_decide_eq_true_2 (0 = 0)) by done. cbn [negb andb].
    rewrite bool_decide_eq_false_2 by done.
    rewrite bool_decide_eq_true_2
      by (apply index_Some in Hidx as [Hk _]; by eapply list_elem_of_lookup_2).
    cbn [negb andb]. rewrite Hidx, eventAt_rows.
    by destruct (rows self !! evN).
  - intros rx [H1 H2] Hrx Hre. unfold getEvent.
    destruct rx as [|c rx]; [done|].
    cbn [truthy_int truthy_str default from_option id negb andb].
    rewrite (bool_decide_eq_true_2 (0 = 0)) by done. cbn [negb andb].
    pose proof (regex_loop_rows re_search self (c :: rx) (eventSchedule_0 self) []
                  (eventSchedule_1 self) [] (eventSchedule_2 self) [] []
                  eq_refl eq_refl eq_refl eq_refl eq_refl H1 H2 Hre) as Hloop.
    cbn [length app] in Hloop. by rewrite Hloop.
  - intros Hrx. unfold getEvent.
    cbn [truthy_int default from_option id].
    rewrite (bool_decide_eq_true_2 (0 = 0)) by done. cbn [negb andb].
    by rewrite Hrx.
Qed.

Lemma getEvent_zero_selector_witness :
  0 ∈ eventSchedule_2 two_bell_table /\
  getEvent literal_search (Some 0) (Some 7200) None two_bell_table
  = inr (Some [(7200, [pystr "b"; []; []], 0)]) /\
  getEvent literal_search (Some 0) (Some 0) (Some (pystr "bell")) two_bell_table
  = inr (Some [(3600, [pystr "b"; pystr "l3"; pystr "bell1"], 10000)]) /\
  getEvent literal_search (Some 0) (Some 0) None two_bell_table = inr None.
Proof.
  destruct (getEvent_zero_selector literal_search None None None two_bell_table)
    as (_ & _ & Hts & _ & Hnone & _).
  destruct (getEvent_zero_selector literal_search None None (Some (pystr "bell"))
              two_bell_table) as (_ & _ & _ & Hrx & _).
  split_and!.
  - apply list_elem_of_further, list_elem_of_here.
  - apply (Hts 7200 1%nat); [discriminate|reflexivity].
  - apply (Hrx (pystr "bell")); [done|discriminate|]. intros d _. discriminate.
  - by apply Hnone.
Defined.

(** ** importTimings *)

(** X19: [importTimings] returns exactly when the pending text parses to a
    value with elements 0, 1 and 2; these three become the arrays as they
    are, whatever they are and whatever else the value holds, and the rest
    of the object is untouched. *)
Theorem importTimings_returns (loads : str -> exn + json) (self self' : PySchedule) :
  importTimings loads self = Return () self'
  <-> exists tData v0 v1 v2,
        loads (py_jsonTimings self) = inr tData /\
        getitem tData 0 = inr v0 /\
        getitem tData 1 = inr v1 /\
        getitem tData 2 = inr v2 /\
        self' = mkPySchedule v0 v1 v2 (py_jsonTimings self)
                  (py_allowedEventModes self) (py_prevTimestamp self).
Proof.
  unfold importTimings. split.
  - destruct (loads (py_jsonTimings self)) as [|tData]; [done|].
    destruct (getitem tData 0) as [|v0] eqn:E0; [done|].
    destruct (getitem tData 1) as [|v1] eqn:E1; [done|].
    destruct (getitem tData 2) as [|v2] eqn:E2; [done|].
    intros [= <-]. by exists tData, v0, v1, v2.
  - intros (tData & v0 & v1 & v2 & -> & -> & -> & -> & ->). done.
Qed.

(** X20: when [importTimings] raises, the third array, the pending text,
    the modes and the cursor are as they were. When the text does not
    parse, the error is the one [json.loads] raised and the object is as it
    was. On a parsed value the error is [IndexError] for a list or a string
    of fewer than three elements, and then each of the first two arrays is
    as it was or holds the element of the value at its place; it is
    [KeyError] for a dict and [TypeError] for a number, [true], [false] or
    [null], the object being as it was. *)
Theorem importTimings_raises (loads : str -> exn + json)
    (self self' : PySchedule) (e : exn) :
  importTimings loads self = Raise e self' ->
  py_eventSchedule_2 self' = py_eventSchedule_2 self /\
  py_jsonTimings self' = py_jsonTimings self /\
  py_allowedEventModes self' = py_allowedEventModes self /\
  py_prevTimestamp self' = py_prevTimestamp self /\
  (forall e', loads (py_jsonTimings self) = inl e' -> e = e' /\ self' = self) /\
  (forall tData, loads (py_jsonTimings self) = inr tData ->
     match tData with
     | JArr l => e = IndexError /\ (length l < 3)%nat
     | JStr s => e = IndexError /\ (length s < 3)%nat
     | JObj _ => e = KeyError /\ self' = self
     | JNull | JBool _ | JInt _ | JFloat _ => e = TypeError /\ self' = self
     end /\
     (py_eventSchedule_0 self' = py_eventSchedule_0 self
      \/ getitem tData 0 = inr (py_eventSchedule_0 self')) /\
     (py_eventSchedule_1 self' = py_eventSchedule_1 self
      \/ getitem tData 1 = inr (py_eventSchedule_1 self'))).
Proof.
  assert (Hitem : forall A (l : list A) i, item l i = inl IndexError \/ exists x, item l i = inr x).
  { intros A l i. unfold item. destruct (l !! i); eauto. }
  assert (Hshort : forall A (l : list A) i e',
             item l i = inl e' -> e' = IndexError /\ (length l <= i)%nat).
  { intros A l i e'. unfold item. destruct (l !! i) eqn:E; [done|].
    intros [= <-]. by apply lookup_ge_None in E. }
  unfold importTimings.
  destruct (loads (py_jsonTimings self)) as [e0|tData].
  { intros [= <- <-]. split_and!; try done. by intros e' [= <-]. }
  destruct (getitem tData 0) as [e0|v0] eqn:E0.
  { intros [= <- <-]. split_and!; try done. intros ? [= <-].
    split_and!; [|by left|by left].
    destruct tData as [| | | |s|l|m]; cbn [getitem] in E0; try (by injection E0 as <-).
    - destruct (item s 0) eqn:Es; [|done]. injection E0 as <-.
      apply Hshort in Es as [-> ?]. split; [done|lia].
    - apply Hshort in E0 as [-> ?]. split; [done|lia]. }
  destruct (getitem tData 1) as [e1|v1] eqn:E1.
  { intros [= <- <-]. split_and!; try done. intros ? [= <-].
    split_and!; [|by right|by left].
    destruct tData as [| | | |s|l|m]; cbn [getitem] in E0, E1; try done.
    - destruct (item s 1) eqn:Es; [|done]. injection E1 as <-.
      apply Hshort in Es as [-> ?]. split; [done|lia].
    - apply Hshort in E1 as [-> ?]. split; [done|lia]. }
  destruct (getitem tData 2) as [e2|v2] eqn:E2; [|done].
  intros [= <- <-]. split_and!; try done. intros ? [= <-].
  split_and!; [|by right|by right].
  destruct tData as [| | | |s|l|m]; cbn [getitem] in E0, E2; try done.
  - destruct (item s 2) eqn:Es; [|done]. injection E2 as <-.
    apply Hshort in Es as [-> ?]. split; [done|lia].
  - apply Hshort in E2 as [-> ?]. split; [done|lia].
Qed.

Lemma importTimings_raises_witness :
  importTimings Json.loads (bell_object "[[1], [2]]")
  = Raise IndexError
      (mkPySchedule (JArr [JInt 1]) (JArr [JInt 2]) (JArr [JInt 10000])
         (pystr "[[1], [2]]") defaultEventModes 0) /\
  py_eventSchedule_2
    (mkPySchedule (JArr [JInt 1]) (JArr [JInt 2]) (JArr [JInt 10000])
       (pystr "[[1], [2]]") defaultEventModes 0)
  = py_eventSchedule_2 (bell_object "[[1], [2]]") /\
  importTimings Json.loads (bell_object "{}") = Raise KeyError (bell_object "{}").
Proof.
  assert (H : importTimings Json.loads (bell_object "[[1], [2]]")
              = Raise IndexError
                  (mkPySchedule (JArr [JInt 1]) (JArr [JInt 2]) (JArr [JInt 10000])
                     (pystr "[[1], [2]]") defaultEventModes 0)) by reflexivity.
  split; [exact H|]. split; [|reflexivity].
  apply (importTimings_raises Json.loads _ _ _ H).
Defined.

(** ** exportTimings *)



(** ** saveToFile and readFromFile *)

Section StorageFacts.

Variable FS : Type.
Variable OSError : Type.
Variable path_exists : FS -> str -> bool.
Variable write_text : FS -> str -> str -> OSError + FS.
Variable read_text : FS -> str -> OSError + str.
Variable glob : FS -> str -> option str -> list str.
Variable getmtime : FS -> str -> OSError + QArith_base.Q.

Lemma free_name_loop_sound (fuel : nat) (fs : FS) (destDir : str) (i k : Z) :
  free_name_loop FS path_exists fuel fs destDir i = Some k ->
  first_free FS path_exists fs destDir i k.
Proof.
  revert i. induction fuel as [|fuel IH]; intros i; [done|].
  cbn [free_name_loop].
  destruct (path_exists fs (OsPath.join destDir (sch_name i))) eqn:E.
  - intros H. apply IH in H as (Hle & Hfree & Hbelow).
    split_and!; [lia|done|]. intros j Hj.
    destruct (decide (j = i)) as [->|Hne]; [done|]. apply Hbelow. lia.
  - intros [= <-]. split_and!; [lia|done|]. intros j Hj. lia.
Qed.

Lemma free_name_loop_complete (fuel : nat) (fs : FS) (destDir : str) (i k : Z) :
  first_free FS path_exists fs destDir i k ->
  (Z.to_nat (k - i) < fuel)%nat ->
  free_name_loop FS path_exists fuel fs destDir i = Some k.
Proof.
  revert i. induction fuel as [|fuel IH]; intros i (Hle & Hfree & Hbelow) Hfuel;
    [lia|].
  cbn [free_name_loop]. destruct (decide (i = k)) as [->|Hne].
  - by rewrite Hfree.
  - rewrite Hbelow by lia. apply IH; [|lia].
    split_and!; [lia|done|]. intros j Hj. apply Hbelow. lia.
Qed.

(** X21: without a file name, [saveToFile] writes the pending text to
    [sch{k}.json] in [destDir] for the least [k >= 0] whose path does not
    exist, so to no path that exists; [k + 1] rounds of the search are
    enough to get there. *)
Theorem saveToFile_default_name (fuel : nat) (destDir : str)
    (newFileName : option str) (self : PySchedule) (fs : FS) :
  truthy_str newFileName = false ->
  (forall r,
     saveToFile FS OSError path_exists write_text fuel destDir newFileName self fs
     = Some r ->
     exists k, first_free FS path_exists fs destDir 0 k /\
               r = written FS OSError write_text self fs (OsPath.join destDir (sch_name k))) /\
  (forall k,
     first_free FS path_exists fs destDir 0 k -> (Z.to_nat k < fuel)%nat ->
     saveToFile FS OSError path_exists write_text fuel destDir newFileName self fs
     = Some (written FS OSError write_text self fs (OsPath.join destDir (sch_name k)))).
Proof.
  intros Hname. unfold saveToFile, written. rewrite Hname. cbn [negb]. split.
  - intros r.
    destruct (free_name_loop FS path_exists fuel fs destDir 0) as [k|] eqn:E; [|done].
    cbn [mbind option_bind]. intros [= <-]. exists k.
    split; [by apply free_name_loop_sound in E|done].
  - intros k Hk Hfuel.
    rewrite (free_name_loop_complete fuel fs destDir 0 k Hk)
      by (by rewrite Z.sub_0_r).
    done.
Qed.

(** X22: the way through a file, for an object whose arrays hold no
    float and no dict, and strings of 8-bit characters only. After an
    [exportTimings] that returned, [saveToFile] under a name; then, on any
    object, [readFromFile] of that name from the same directory and
    [importTimings]: when the write succeeds and the file system gives the
    written text back, the object ends with the three arrays of the
    exporting one. *)
Theorem save_read_import (float_repr : str -> str) (fuel : nat) (dir name : str)
    (self exported other : PySchedule) (fs fs' : FS) :
  dir <> [] -> name <> [] ->
  plain (JArr (py_eventSchedule self)) = true ->
  exportTimings (Json.dumps float_repr) self = Return () exported ->
  write_text fs (OsPath.join dir name) (py_jsonTimings exported) = inr fs' ->
  read_text fs' (OsPath.join dir name) = inr (py_jsonTimings exported) ->
  exists n other' other'',
    saveToFile FS OSError path_exists write_text fuel dir (Some name) exported fs
    = Some (inr (n, fs')) /\
    readFromFile FS OSError read_text glob getmtime (Some dir) (Some name) other fs'
    = inr other' /\
    py_eventSchedule other' = py_eventSchedule other /\
    importTimings Json.loads other' = Return () other'' /\
    py_eventSchedule other'' = py_eventSchedule self.
Proof.
  intros Hdir Hname Hplain Hexport Hwrite Hread.
  exists (Z.of_nat (length (py_jsonTimings exported))).
  eexists _, _. split.
  { unfold saveToFile. destruct name as [|c name]; [done|].
    cbn [truthy_str negb default from_option id mbind option_bind].
    by rewrite Hwrite. }
  split.
  { unfold readFromFile, str_or. destruct name as [|c name]; [done|].
    destruct dir as [|c' dir]; [done|].
    cbn [truthy_str negb default from_option id]. by rewrite Hread. }
  split; [done|].
  split; [by apply (importTimings_exportTimings float_repr self exported)|done].
Qed.

(** The loop from a candidate [a] with time [ta] on: the result is [a], no
    later file being newer, or the first file after it that is newer than
    [a] and than all files before it, no file being newer still. *)
Lemma newest_loop_from (fs : FS) (names : list str) (a : str) (ta : QArith_base.Q) :
  (forall m, m ∈ names -> exists tm, getmtime fs m = inr tm) ->
  exists n t,
    newest_loop FS OSError getmtime fs names (a, Some ta) = inr (n, Some t) /\
    QArith_base.Qle ta t /\
    (forall m tm, m ∈ names -> getmtime fs m = inr tm -> QArith_base.Qle tm t) /\
    ((n = a /\ t = ta) \/
     exists k, names !! k = Some n /\ getmtime fs n = inr t /\
               QArith_base.Qlt ta t /\
               forall j m tm, (j < k)%nat -> names !! j = Some m ->
                              getmtime fs m = inr tm -> QArith_base.Qlt tm t).
Proof.
  revert a ta. induction names as [|i names IH]; intros a ta Hall.
  - exists a, ta. split_and!; [done|apply QArith_base.Qle_refl| |by left].
    intros m tm Hm. by apply not_elem_of_nil in Hm.
  - destruct (Hall i (list_elem_of_here _ _)) as [ti Hti].
    assert (Hall' : forall m, m ∈ names -> exists tm, getmtime fs m = inr tm)
      by (intros m Hm; apply Hall; by apply list_elem_of_further).
    cbn [newest_loop snd]. rewrite Hti.
    destruct (QArith_base.Qlt_le_dec ta ti) as [Hlt|Hle].
    + destruct (IH i ti Hall') as (n & t & Hloop & Hge & Hmax & Hwhich).
      exists n, t. split; [done|].
      split; [eapply QArith_base.Qle_trans; [by apply QArith_base.Qlt_le_weak|done]|].
      split.
      * intros m tm Hm Htm. apply elem_of_cons in Hm as [->|Hm]; [|by eapply Hmax].
        rewrite Hti in Htm. by injection Htm as <-.
      * right. destruct Hwhich as [[-> ->]|(k & Hk & Hnt & Hgt & Hbefore)].
        -- exists 0%nat. split_and!; [done|done|done|]. intros j m tm Hj. lia.
        -- exists (S k). split_and!; [done|done| |].
           ++ by eapply QArith_base.Qlt_trans.
           ++ intros [|j] m tm Hj Hm Htm.
              ** simpl in Hm. injection Hm as <-. rewrite Hti in Htm.
                 by injection Htm as <-.
              ** eapply (Hbefore j); [lia|done|done].
    + destruct (IH a ta Hall') as (n & t & Hloop & Hge & Hmax & Hwhich).
      exists n, t. split; [done|]. split; [done|]. split.
      * intros m tm Hm Htm. apply elem_of_cons in Hm as [->|Hm]; [|by eapply Hmax].
        rewrite Hti in Htm. injection Htm as <-.
        by eapply QArith_base.Qle_trans.
      * destruct Hwhich as [[-> ->]|(k & Hk & Hnt & Hgt & Hbefore)]; [by left|].
        right. exists (S k). split_and!; [done|done|done|].
        intros [|j] m tm Hj Hm Htm.
        -- simpl in Hm. injection Hm as <-. rewrite Hti in Htm. injection Htm as <-.
           by eapply QArith_base.Qle_lt_trans.
        -- eapply (Hbefore j); [lia|done|done].
Qed.

(** X23: without a file name, when there are candidates and the time of
    each can be read, [readFromFile] reads the candidate with the latest
    modification time, the first of them in the order of the listing when
    several share it. The time is asked for the bare name, the text is read
    from the name joined to [sourceDir], or to [.] without one. *)
Theorem readFromFile_newest (sourceDir fileName : option str)
    (self : PySchedule) (fs : FS) :
  truthy_str fileName = false ->
  glob fs (pystr "sch[0-9]*.json") sourceDir <> [] ->
  (forall m, m ∈ glob fs (pystr "sch[0-9]*.json") sourceDir ->
             exists tm, getmtime fs m = inr tm) ->
  exists k n t,
    glob fs (pystr "sch[0-9]*.json") sourceDir !! k = Some n /\
    getmtime fs n = inr t /\
    (forall m tm, m ∈ glob fs (pystr "sch[0-9]*.json") sourceDir ->
                  getmtime fs m = inr tm -> QArith_base.Qle tm t) /\
    (forall j m tm, (j < k)%nat ->
                    glob fs (pystr "sch[0-9]*.json") sourceDir !! j = Some m ->
                    getmtime fs m = inr tm -> QArith_base.Qlt tm t) /\
    readFromFile FS OSError read_text glob getmtime sourceDir fileName self fs
    = match read_text fs (OsPath.join (str_or sourceDir (pystr ".")) n) with
      | inl e => inl e
      | inr text => inr (set_py_jsonTimings text self)
      end.
Proof.
  intros Hname Hnames Hall. unfold readFromFile. rewrite Hname. cbn [negb].
  destruct (glob fs (pystr "sch[0-9]*.json") sourceDir) as [|i names]; [done|].
  destruct (Hall i (list_elem_of_here _ _)) as [ti Hti].
  cbn [newest_loop snd]. rewrite Hti.
  destruct (newest_loop_from fs names i ti) as (n & t & Hloop & Hge & Hmax & Hwhich).
  { intros m Hm. apply Hall. by apply list_elem_of_further. }
  rewrite Hloop. cbn [fst].
  destruct Hwhich as [[-> ->]|(k & Hk & Hnt & Hgt & Hbefore)].
  - exists 0%nat, i, ti. split_and!; [done|done| | |done].
    + intros m tm Hm Htm. apply elem_of_cons in Hm as [->|Hm]; [|by eapply Hmax].
      rewrite Hti in Htm. injection Htm as <-. apply QArith_base.Qle_refl.
    + intros j m tm Hj. lia.
  - exists (S k), n, t. split_and!; [done|done| | |done].
    + intros m tm Hm Htm. apply elem_of_cons in Hm as [->|Hm]; [|by eapply Hmax].
      rewrite Hti in Htm. by injection Htm as <-.
    + intros [|j] m tm Hj Hm Htm.
      * simpl in Hm. injection Hm as <-. rewrite Hti in Htm. by injection Htm as <-.
      * eapply (Hbefore j); [lia|done|done].
Qed.

(** X24: without a file name and without a candidate, [readFromFile] opens
    the empty name joined to the directory, which is the directory itself
    with a separator at its end. *)
Theorem readFromFile_no_candidate (sourceDir fileName : option str)
    (self : PySchedule) (fs : FS) :
  truthy_str fileName = false ->
  glob fs (pystr "sch[0-9]*.json") sourceDir = [] ->
  OsPath.endswith OsPath.sep (str_or sourceDir (pystr ".")) = false ->
  readFromFile FS OSError read_text glob getmtime sourceDir fileName self fs
  = match read_text fs (str_or sourceDir (pystr ".") ++ [OsPath.sep]) with
    | inl e => inl e
    | inr text => inr (set_py_jsonTimings text self)
    end.
Proof.
  intros Hname Hglob Hend. unfold readFromFile. rewrite Hname, Hglob.
  cbn [negb newest_loop fst]. unfold OsPath.join. rewrite Hend.
  cbn [Str.startswith]. rewrite orb_false_r.
  case_bool_decide as Hempty; [|done].
  exfalso. destruct sourceDir as [[|c dir]|]; discriminate Hempty.
Qed.

End StorageFacts.

Lemma saveToFile_default_name_witness :
  truthy_str None = false /\
  saveToFile Disk.disk Disk.oserror Disk.path_exists Disk.write_text 5
    (pystr ".") None (bell_object "[]") one_file_disk
  = Some (written Disk.disk Disk.oserror Disk.write_text (bell_object "[]")
            one_file_disk (pystr "./sch1.json")).
Proof.
  split; [reflexivity|].
  assert (Hfree : first_free Disk.disk Disk.path_exists one_file_disk (pystr ".") 0 1).
  { split_and!; [lia|reflexivity|]. intros j Hj.
    assert (j = 0) as -> by lia. reflexivity. }
  assert (Hfuel : (Z.to_nat 1 < 5)%nat) by (simpl; lia).
  exact (proj2 (saveToFile_default_name Disk.disk Disk.oserror Disk.path_exists
                  Disk.write_text 5 (pystr ".") None (bell_object "[]")
                  one_file_disk eq_refl) 1 Hfree Hfuel).
Defined.

Lemma save_read_import_witness :
  exists exported n other' other'' fs',
    exportTimings (Json.dumps same_literal) (py_of bell_table) = Return () exported /\
    saveToFile Disk.disk Disk.oserror Disk.path_exists Disk.write_text 0
      (pystr ".") (Some (pystr "week.json")) exported one_file_disk
    = Some (inr (n, fs')) /\
    readFromFile Disk.disk Disk.oserror Disk.read_text Disk.glob Disk.getmtime
      (Some (pystr ".")) (Some (pystr "week.json"))
      (py_of (init defaultEventModes monday_midnight)) fs'
    = inr other' /\
    importTimings Json.loads other' = Return () other'' /\
    py_eventSchedule other'' = py_eventSchedule (py_of bell_table).
Proof.
  pose (text := text_of same_literal (JArr (py_eventSchedule (py_of bell_table)))).
  assert (Hexport : exportTimings (Json.dumps same_literal) (py_of bell_table)
                    = Return () (set_py_jsonTimings text (py_of bell_table))).
  { rewrite exportTimings_writable.
    by replace (writable (JArr (py_eventSchedule (py_of bell_table)))) with true
      by (by vm_compute). }
  destruct (save_read_import Disk.disk Disk.oserror Disk.path_exists Disk.write_text
              Disk.read_text Disk.glob Disk.getmtime same_literal 0
              (pystr ".") (pystr "week.json")
              (py_of bell_table) (set_py_jsonTimings text (py_of bell_table))
              (py_of (init defaultEventModes monday_midnight))
              one_file_disk ((pystr "./week.json", text) :: one_file_disk))
    as (n & other' & other'' & Hsave & Hread & _ & Himport & Harrays).
  - discriminate.
  - discriminate.
  - apply py_of_plain.
  - exact Hexport.
  - reflexivity.
  - reflexivity.
  - eexists _, n, other', other'', _.
    split_and!; [exact Hexport|exact Hsave|exact Hread|exact Himport|exact Harrays].
Defined.

Lemma readFromFile_newest_witness :
  exists k n t,
    Disk.glob two_file_disk (pystr "sch[0-9]*.json") None !! k = Some n /\
    Disk.getmtime two_file_disk n = inr t.
Proof.
  destruct (readFromFile_newest Disk.disk Disk.oserror Disk.read_text Disk.glob
              Disk.getmtime None None (bell_object "[]") two_file_disk)
    as (k & n & t & Hk & Ht & _).
  - reflexivity.
  - discriminate.
  - intros m Hm. apply list_elem_of_In in Hm. simpl in Hm.
    destruct Hm as [<-|[<-|[]]]; eexists; reflexivity.
  - by exists k, n, t.
Defined.

Lemma readFromFile_no_candidate_witness :
  readFromFile Disk.disk Disk.oserror Disk.read_text Disk.glob Disk.getmtime
    None None (bell_object "[]") []
  = inl Disk.FileNotFoundError.
Proof.
  rewrite (readFromFile_no_candidate Disk.disk Disk.oserror Disk.read_text
             Disk.glob Disk.getmtime None None (bell_object "[]") []);
    reflexivity.
Defined.
